(** * Return&Reward (ReturnAndReward/src/App.jsx): scan resolution, chat
      identifiers, the "my items" ordering and the return confirmation.

    The React component [App] is embedded shallowly: its [useState] cells
    are the fields of a record, its handlers are functions from that record
    (and from what the awaited Firestore calls answered) to the next record
    together with the store calls they issued, and the Firestore collections
    are finite maps from document ids to documents. *)

From Stdlib Require Import ZArith Ascii String.
From stdpp Require Import gmap strings list sorting.

Local Open Scope string_scope.
Local Open Scope Z_scope.

(** ** JavaScript values used by the component *)

Module Js.

(** A string is its sequence of code units, taken here from the first 256
    ([String.string]); [String.compare] is the code-unit order that the
    default [sort] uses. *)

(** [!s] for a value that is [null]/[undefined] or a string. *)
Definition truthy (s : option string) : bool :=
  match s with
  | Some EmptyString => false
  | Some _ => true
  | None => false
  end.

(** [a === b] for two values that are strings or absent, where an absent
  [a] is [undefined] and an absent [b] is [null]: only two equal strings
  are strictly equal. *)
Definition strict_eq (a b : option string) : bool :=
  match a, b with
  | Some x, Some y => String.eqb x y
  | _, _ => false
  end.

(** [String(v)] of a property key that is a string or [undefined]. *)
Definition to_key (v : option string) : string :=
  match v with
  | Some s => s
  | None => "undefined"
  end.

(** White space and line terminators below code unit 256, the characters
  [String.prototype.trim] strips: TAB, LF, VT, FF, CR, SP, NBSP. *)
Definition is_space (c : ascii) : bool :=
  let n := N_of_ascii c in
  ((9 <=? n) && (n <=? 13) || (n =? 32) || (n =? 160))%N.

Fixpoint trimStart (s : string) : string :=
  match s with
  | EmptyString => EmptyString
  | String c s' => if is_space c then trimStart s' else s
  end.

Fixpoint trimEnd (s : string) : string :=
  match s with
  | EmptyString => EmptyString
  | String c s' =>
    match trimEnd s' with
    | EmptyString => if is_space c then EmptyString else String c EmptyString
    | t => String c t
    end
  end.

(** Every character of [s] is one that [trim] strips. *)
Fixpoint all_space (s : string) : bool :=
  match s with
  | EmptyString => true
  | String c s' => is_space c && all_space s'
  end.

(** [s.trim()] *)
Definition trim (s : string) : string := trimEnd (trimStart s).

(** The one-character string holding a double quote. *)
Definition dquote : string := String (ascii_of_nat 34) EmptyString.

(** [needle] occurs in [s] as a contiguous substring. *)
Definition includes (s needle : string) : Prop :=
  exists pre post, s = pre ++ needle ++ post.

(** *** [Array.prototype.sort]

  With a consistent comparator the result of [sort] is the stable
  sorted arrangement; it is computed here by stable insertion: an
  element is put before the first element it does not compare greater
  than, so elements that compare equal keep their order. *)
Section Sort.
Context {A : Type} (cmp : A -> A -> Z).

Fixpoint insert_sorted (x : A) (l : list A) : list A :=
  match l with
  | [] => [x]
  | y :: l' => if cmp x y <=? 0 then x :: l else y :: insert_sorted x l'
  end.

Definition sort_by (l : list A) : list A := foldr insert_sorted [] l.
End Sort.

(** The comparator [sort()] uses when none is given, on strings. *)
Definition default_compare (x y : string) : Z :=
  match String.compare x y with
  | Lt => -1
  | Eq => 0
  | Gt => 1
  end.

(** [arr.sort()] on an array whose elements are strings or [undefined]:
  the strings in code-unit order, then the [undefined] elements. *)
Definition sort_default (arr : list (option string)) : list (option string) :=
  (Some <$> sort_by default_compare (omap id arr))
  ++ List.filter (fun v => negb (bool_decide (is_Some v))) arr.

(** [arr.join(sep)]: an [undefined] element contributes the empty string. *)
Definition join (sep : string) (arr : list (option string)) : string :=
  String.concat sep (map (fun v => default EmptyString v) arr).

(** *** Plain objects used as dictionaries

  [const o = {}; o[id] = v; ... o[k]]: a key the object does not own is
  looked up on [Object.prototype], whose members are all truthy. *)
Definition object_prototype_names : list string :=
  [ "constructor"; "hasOwnProperty"; "isPrototypeOf"; "propertyIsEnumerable";
  "toLocaleString"; "toString"; "valueOf"; "__proto__";
  "__defineGetter__"; "__defineSetter__"; "__lookupGetter__";
  "__lookupSetter__" ].

Definition inherited (k : string) : bool :=
  existsb (String.eqb k) object_prototype_names.

(** [o[k]], given how a member of [Object.prototype] looks through the
  fields the program reads ([proto_member]): [None] is [undefined]. *)
Definition get {V : Type} (proto_member : V) (o : gmap string V) (k : string)
  : option V :=
  match o !! k with
  | Some v => Some v
  | None => if inherited k then Some proto_member else None
  end.

(** [Object.values(o)]. JavaScript enumerates in insertion order; the
  order only decides between elements a later [sort] compares equal. *)
Definition values {V : Type} (o : gmap string V) : list V :=
  (map_to_list o).*2.

End Js.

(** ** Chat identifiers *)

(** [getChatDocId] (App.jsx 98-101) *)
Definition getChatDocId (uid1 uid2 : option string) : string :=
  let sortedUids := Js.sort_default [uid1; uid2] in
  Js.join "_" sortedUids.

(** ** Documents

    A field the object does not have reads as [undefined]: [None]. *)

(** A Firestore [Timestamp], through the one field the program reads. *)
Record Timestamp := { seconds : Z }.

(** An item as the component holds it: [{ id: doc.id, ...doc.data() }]. *)
Record Item := {
  item_id : option string;
  itemName : option string;
  description : option string;
  ownerId : option string;
  status : option string;
  createdAt : option Timestamp;
}.

Record Profile := {
  uid : option string;
  name : option string;
  email : option string;
  photoURL : option string;
}.

Record Message := {
  message_id : option string;
  senderId : option string;
  text : option string;
  timestamp : option Timestamp;
}.

Record Chat := {
  chat_id : option string;
  participants : option (list (option string));
  itemId : option string;
  lastMessageAt : option Timestamp;
  messages : option (list Message);
}.

(** What a member of [Object.prototype] (a function, or the prototype
    itself) answers for each field of an item or of a chat: [undefined]. *)
Definition undefined_item : Item :=
  {| item_id := None; itemName := None; description := None;
     ownerId := None; status := None; createdAt := None |}.

Definition undefined_chat : Chat :=
  {| chat_id := None; participants := None; itemId := None;
     lastMessageAt := None; messages := None |}.

(** An object with none of the fields of a profile: the prototype itself,
    a new object. Where only its being truthy counts it also stands for a
    function member of [Object.prototype]; a function has a [name] of its
    own, but none is ever kept as a profile (see [run_member]). *)
Definition undefined_profile : Profile :=
  {| uid := None; name := None; email := None; photoURL := None |}.

(** [{ ...it, status: st }] *)
Definition with_status (st : string) (it : Item) : Item :=
  {| item_id := item_id it; itemName := itemName it;
     description := description it; ownerId := ownerId it;
     status := Some st; createdAt := createdAt it |}.

(** [{ id: k, ...it }]: a field [id] of the document itself wins. *)
Definition with_id (k : string) (it : Item) : Item :=
  {| item_id := match item_id it with Some i => Some i | None => Some k end;
     itemName := itemName it; description := description it;
     ownerId := ownerId it; status := status it; createdAt := createdAt it |}.

(** [{ ...c, messages: msgs }] *)
Definition with_messages (msgs : list Message) (c : Chat) : Chat :=
  {| chat_id := chat_id c; participants := participants c; itemId := itemId c;
     lastMessageAt := lastMessageAt c; messages := Some msgs |}.

(** [it.status === st] *)
Definition has_status (st : string) (it : Item) : bool :=
  Js.strict_eq (status it) (Some st).

(** ** The Firestore collections under [public/data] *)

Record Store := {
  items_col : gmap string Item;
  chats_col : gmap string Chat;
  messages_col : gmap (string * string) Message;
}.

(** The calls the component makes on these collections, one constructor
    per call site, with the data the call passes. A [serverTimestamp()]
    field is filled in by the store. (The profile documents, written by
    [handleProfileSetup], are in other collections.) *)
Inductive write :=
  (** [addDoc(items, item)] in [handleAddItem]; [docId] is [docRef.id] *)
  | AddItem (docId : string) (itemName description : string) (ownerId : option string)
  (** [setDoc(doc(items, id), { status: 'returned' }, { merge: true })] *)
  | MarkReturned (docId : string)
  (** [setDoc(doc(chats, chatId), { participants, itemId, lastMessageAt },
      { merge: true })] in [handleStartChat] *)
  | UpsertChat (chatId : string) (participants : list (option string))
               (itemId : option string)
  (** [addDoc(collection(chatDocRef, 'messages'), ...)] in [handleSendMessage] *)
  | AddMessage (chatId docId : string) (senderId : option string) (text : string)
  (** [setDoc(chatDocRef, { lastMessageAt }, { merge: true })] *)
  | TouchChat (chatId : string).

(** What the store does with a call it accepts, at server time [now]. A
    merge write creates the document when there is none and otherwise
    replaces the written fields only. *)
Definition apply_write (now : Z) (w : write) (st : Store) : Store :=
  let t := Some {| seconds := now |} in
  match w with
  | AddItem docId nm descr owner =>
      {| items_col :=
           <[docId := {| item_id := None; itemName := Some nm;
                         description := Some descr; ownerId := owner;
                         status := Some "missing"; createdAt := t |}]>
             (items_col st);
         chats_col := chats_col st; messages_col := messages_col st |}
  | MarkReturned docId =>
      {| items_col :=
           <[docId := with_status "returned"
                        (default undefined_item (items_col st !! docId))]>
             (items_col st);
         chats_col := chats_col st; messages_col := messages_col st |}
  | UpsertChat chatId ps it =>
      let old := default undefined_chat (chats_col st !! chatId) in
      {| items_col := items_col st;
         chats_col :=
           <[chatId := {| chat_id := chat_id old; participants := Some ps;
                          itemId := it; lastMessageAt := t;
                          messages := messages old |}]> (chats_col st);
         messages_col := messages_col st |}
  | AddMessage chatId docId sender txt =>
      {| items_col := items_col st; chats_col := chats_col st;
         messages_col :=
           <[(chatId, docId) := {| message_id := None; senderId := sender;
                                   text := Some txt; timestamp := t |}]>
             (messages_col st) |}
  | TouchChat chatId =>
      let old := default undefined_chat (chats_col st !! chatId) in
      {| items_col := items_col st;
         chats_col :=
           <[chatId := {| chat_id := chat_id old;
                          participants := participants old;
                          itemId := itemId old; lastMessageAt := t;
                          messages := messages old |}]> (chats_col st);
         messages_col := messages_col st |}
  end.

(** [addDoc] names the new document with an identifier the store has not
    used in that collection; the other calls name their document. *)
Definition accepts (st : Store) (w : write) : Prop :=
  match w with
  | AddItem docId _ _ _ => items_col st !! docId = None
  | AddMessage chatId docId _ _ => messages_col st !! (chatId, docId) = None
  | _ => True
  end.

Definition apply_writes (now : Z) (ws : list write) (st : Store) : Store :=
  foldl (fun acc w => apply_write now w acc) st ws.

(** A history of accepted calls, each with the server time it arrived at. *)
Fixpoint store_run (st : Store) (history : list (Z * write)) : Store :=
  match history with
  | [] => st
  | (now, w) :: rest => store_run (apply_write now w st) rest
  end.

Fixpoint accepted (st : Store) (history : list (Z * write)) : Prop :=
  match history with
  | [] => True
  | (now, w) :: rest => accepts st w /\ accepted (apply_write now w st) rest
  end.

(** ** The state of [App] *)

Inductive View :=
  | login | profile_setup | dashboard | add_item | item_qr | scan
  | user_profile | chat.

(** The closures a modal is opened with. *)
Inductive ModalAction :=
  (** [() => {}] *)
  | NoOp
  (** [() => globalSetModal({ isOpen: false })], [() => setModal({ isOpen: false })] *)
  | Dismiss
  (** the [onConfirm] of [handleMarkReturned], closed over [selectedItem] *)
  | ConfirmReturn (selectedItem : Item).

Record Modal := {
  isOpen : bool;
  title : option string;
  message : option string;
  onConfirm : option ModalAction;
  onCancel : option ModalAction;
}.

Record AppState := {
  db : bool;                       (* the module-level Firestore handle is set *)
  auth : bool;                     (* the module-level Auth handle is set *)
  userId : option string;
  users : gmap string Profile;
  items : gmap string Item;
  chats : gmap string Chat;
  view : View;
  selectedItem : option Item;
  selectedUser : option Profile;
  selectedChat : option Chat;
  modal : Modal;
}.

Definition setView (v : View) (s : AppState) : AppState :=
  {| db := db s; auth := auth s;
     userId := userId s; users := users s; items := items s;
     chats := chats s; view := v; selectedItem := selectedItem s;
     selectedUser := selectedUser s; selectedChat := selectedChat s;
     modal := modal s |}.

Definition setSelectedItem (it : option Item) (s : AppState) : AppState :=
  {| db := db s; auth := auth s;
     userId := userId s; users := users s; items := items s;
     chats := chats s; view := view s; selectedItem := it;
     selectedUser := selectedUser s; selectedChat := selectedChat s;
     modal := modal s |}.

Definition setSelectedUser (p : option Profile) (s : AppState) : AppState :=
  {| db := db s; auth := auth s;
     userId := userId s; users := users s; items := items s;
     chats := chats s; view := view s; selectedItem := selectedItem s;
     selectedUser := p; selectedChat := selectedChat s; modal := modal s |}.

Definition setSelectedChat (c : option Chat) (s : AppState) : AppState :=
  {| db := db s; auth := auth s;
     userId := userId s; users := users s; items := items s;
     chats := chats s; view := view s; selectedItem := selectedItem s;
     selectedUser := selectedUser s; selectedChat := c; modal := modal s |}.

Definition setModal (m : Modal) (s : AppState) : AppState :=
  {| db := db s; auth := auth s;
     userId := userId s; users := users s; items := items s;
     chats := chats s; view := view s; selectedItem := selectedItem s;
     selectedUser := selectedUser s; selectedChat := selectedChat s;
     modal := m |}.

Definition setUserId (u : option string) (s : AppState) : AppState :=
  {| db := db s; auth := auth s;
     userId := u; users := users s; items := items s;
     chats := chats s; view := view s; selectedItem := selectedItem s;
     selectedUser := selectedUser s; selectedChat := selectedChat s;
     modal := modal s |}.

Definition setItems (m : gmap string Item) (s : AppState) : AppState :=
  {| db := db s; auth := auth s;
     userId := userId s; users := users s; items := m;
     chats := chats s; view := view s; selectedItem := selectedItem s;
     selectedUser := selectedUser s; selectedChat := selectedChat s;
     modal := modal s |}.

Definition setUsers (m : gmap string Profile) (s : AppState) : AppState :=
  {| db := db s; auth := auth s;
     userId := userId s; users := m; items := items s;
     chats := chats s; view := view s; selectedItem := selectedItem s;
     selectedUser := selectedUser s; selectedChat := selectedChat s;
     modal := modal s |}.

Definition setChats (m : gmap string Chat) (s : AppState) : AppState :=
  {| db := db s; auth := auth s;
     userId := userId s; users := users s; items := items s;
     chats := m; view := view s; selectedItem := selectedItem s;
     selectedUser := selectedUser s; selectedChat := selectedChat s;
     modal := modal s |}.

(** [{ isOpen: false }] *)
Definition closed_modal : Modal :=
  {| isOpen := false; title := None; message := None;
     onConfirm := None; onCancel := None |}.

(** [{ isOpen: true, title, message, onConfirm: () =>
    globalSetModal({ isOpen: false }), onCancel: null }] *)
Definition notice (ttl msg : string) : Modal :=
  {| isOpen := true; title := Some ttl; message := Some msg;
     onConfirm := Some Dismiss; onCancel := None |}.

(** ** Scan resolution *)

(** What [getDoc(getUserDocRef(uid))] did: a snapshot of an existing
    document, a snapshot of no document, or an exception (permission
    denied, network, a bad reference). *)
Inductive ReadResult :=
  | ReadFound (p : Profile)
  | ReadMissing
  | ReadFailed.

(** A call on the Profile Store. *)
Inductive access := GetDoc (uid : option string).

(** [fetchProfileByUid] (App.jsx 103-114) *)
Definition fetchProfileByUid (db : bool) (read : option string -> ReadResult)
    (uid : option string) : option Profile * list access :=
  if negb db then (None, [])
  else
    match read uid with
    | ReadFound p => (Some p, [GetDoc uid])
    | ReadMissing => (None, [GetDoc uid])
    | ReadFailed => (None, [GetDoc uid])     (* catch: console.error *)
    end.

(** How an [async] handler settled. [RenderError]: the handler resolved,
    but an updater it had handed to a state setter threw when React ran
    it for the next render; React then unmounts the component. *)
Inductive outcome :=
  | Resolved (it : Item)
  | Thrown (msg : string)
  | RenderError.

(** [setState(v)] for a [v] read from a plain object under a name the
    object does not own. React stores a [v] that is not a function and
    runs one that is as an updater, [v(prev)], without a [this]. Of the
    members of [Object.prototype], [__proto__] is the prototype itself;
    [constructor] is [Object], and [Object(prev)] is [prev] or a new
    object; [toString] answers ["[object Undefined]"]; [isPrototypeOf]
    answers [false] for a [prev] that is not an object, before it turns to
    [this]; the others convert [this] to an object first, which throws.
    Something stored that is not one of the component's records has none
    of the fields the program reads ([blank]); [None] is a falsy value.
    (A stored string, which only [toString] leaves behind, counts as an
    object when [isPrototypeOf] is run on it afterwards.) The answer
    [None] is a throw. *)
Definition run_member {V : Type} (blank : V) (member : string) (prev : option V)
  : option (option V) :=
  if String.eqb member "__proto__" then Some (Some blank)
  else if String.eqb member "constructor" then Some (Some (default blank prev))
  else if String.eqb member "toString" then Some (Some blank)
  else if String.eqb member "isPrototypeOf" then
    match prev with
    | None => Some None
    | Some _ => None
    end
  else None.

(** [setState(o[k])] where [o[k]] is [v]: an own value is stored. *)
Definition set_from {V : Type} (blank : V) (o : gmap string V) (k : string)
    (v : V) (prev : option V) : option (option V) :=
  match o !! k with
  | Some _ => Some (Some v)
  | None => run_member blank k prev
  end.

Definition msg_not_initialized : string := "App not initialized.".
Definition msg_not_found (itemId : string) : string :=
  "No item found with ID: " ++ itemId.
Definition msg_own_item : string := "This is your own registered item.".
Definition msg_owner_unavailable : string :=
  "Item found, but owner profile is missing or inaccessible.".

(** [handleScanResult] (App.jsx 894-921) *)
Definition handleScanResult (s : AppState) (read : option string -> ReadResult)
    (itemId : string) : AppState * outcome * list access :=
  if negb (db s) || negb (Js.truthy (userId s)) then
    (s, Thrown msg_not_initialized, [])
  else
    match Js.get undefined_item (items s) itemId with
    | None => (s, Thrown (msg_not_found itemId), [])
    | Some item =>
        if Js.strict_eq (ownerId item) (userId s) then
          (setView item_qr (setSelectedItem (Some item) s),
           Thrown msg_own_item, [])
        else
          let key := Js.to_key (ownerId item) in
          let '(ownerProfile, cached, acc) :=
            match Js.get undefined_profile (users s) key with
            | Some p => (Some p, true, [])
            | None =>
                let '(p, acc) := fetchProfileByUid (db s) read (ownerId item) in
                (p, false, acc)
            end in
          match ownerProfile with
          | None => (s, Thrown msg_owner_unavailable, acc)
          | Some p =>
              let newItem := set_from undefined_item (items s) itemId item
                               (selectedItem s) in
              let newUser :=
                if cached then
                  set_from undefined_profile (users s) key p (selectedUser s)
                else Some (Some p) in
              match newItem, newUser with
              | Some it', Some p' =>
                  (setView user_profile
                     (setSelectedUser p' (setSelectedItem it' s)),
                   Resolved item, acc)
              | _, _ => (s, RenderError, acc)
              end
          end
    end.

(** [ScanView]'s [handleSubmit] (App.jsx 475-483) on the text in the input
    box: the next state of [App], the view's [error] and the store calls. *)
Definition handleSubmit (s : AppState) (read : option string -> ReadResult)
    (itemId : string) : AppState * option string * list access :=
  if Js.truthy (Some (Js.trim itemId)) then
    match handleScanResult s read (Js.trim itemId) with
    | (s', Resolved _, acc) => (s', None, acc)
    | (s', Thrown msg, acc) => (s', Some msg, acc)
    | (s', RenderError, acc) => (s', None, acc)
    end
  else (s, None, []).

(** ** Handlers that write

    [ok] says whether the awaited store call resolved ([true]) or rejected;
    a handler answers the next state and the calls it issued. A document
    reference [doc(collection, id)] needs the handle [db] and a non-empty
    [id]; without them building the reference throws inside the [try]. *)

(** [handleAddItem] (App.jsx 870-892); [newId] is the [docRef.id] of
    [addDoc]. The local copy keeps the [serverTimestamp()] sentinel as
    [createdAt], which has no [seconds]. *)
Definition handleAddItem (s : AppState) (nm descr newId : string) (ok : bool)
  : AppState * list write :=
  if negb (Js.truthy (userId s)) || negb (db s) then (s, [])
  else if ok then
    let newItem :=
      {| item_id := Some newId; itemName := Some nm; description := Some descr;
         ownerId := userId s; status := Some "missing"; createdAt := None |} in
    (setView item_qr (setSelectedItem (Some newItem) s),
     [AddItem newId nm descr (userId s)])
  else
    (setModal (notice "Error" "Failed to add item. Please try again.") s,
     [AddItem newId nm descr (userId s)]).

(** [handleStartChat] (App.jsx 923-947). A chat id is the name of a member
    of [Object.prototype] only for an empty owner id and a uid such as
    [_proto__] or [_defineGetter__]; [chats[chatId]] is then taken to be
    an object without fields, as the prototype itself is, also where the
    member is a function. *)
Definition handleStartChat (s : AppState) (ok : bool) : AppState * list write :=
  match selectedItem s, selectedUser s with
  | Some it, Some _ =>
      if negb (Js.truthy (userId s)) then (s, [])
      else
        let otherUserId := ownerId it in
        let chatId := getChatDocId (userId s) otherUserId in
        let failed :=
          setModal (notice "Chat Error" "Failed to start chat. Try again.") s in
        if negb (db s) || negb (Js.truthy (Some chatId)) then (failed, [])
        else
          let w := UpsertChat chatId (Js.sort_default [userId s; otherUserId])
                     (item_id it) in
          if ok then
            let c :=
              match Js.get undefined_chat (chats s) chatId with
              | Some c => c
              | None =>
                  {| chat_id := Some chatId;
                     participants := Some [userId s; otherUserId];
                     itemId := None; lastMessageAt := None;
                     messages := Some [] |}
              end in
            (setView chat (setSelectedChat (Some c) s), [w])
          else (failed, [w])
  | _, _ => (s, [])
  end.

(** [handleSendMessage] (App.jsx 949-969); [ok1] and [ok2] settle the two
    awaited calls. *)
Definition handleSendMessage (s : AppState) (txt newId : string) (ok1 ok2 : bool)
  : AppState * list write :=
  match selectedChat s with
  | Some c =>
      if negb (Js.truthy (userId s)) || negb (db s) then (s, [])
      else
        let failed := setModal (notice "Error" "Failed to send message.") s in
        match chat_id c with
        | Some cid =>
            if negb (Js.truthy (Some cid)) then (failed, [])
            else if negb ok1 then (failed, [AddMessage cid newId (userId s) txt])
            else if negb ok2 then
              (failed, [AddMessage cid newId (userId s) txt; TouchChat cid])
            else (s, [AddMessage cid newId (userId s) txt; TouchChat cid])
        | None => (failed, [])
        end
  | None => (s, [])
  end.

(** [handleMarkReturned] (App.jsx 971-991): opens the confirmation. *)
Definition handleMarkReturned (s : AppState) : AppState :=
  match selectedItem s with
  | Some it =>
      if negb (db s) then s
      else
        setModal
          {| isOpen := true;
             title := Some "Confirm Item Return";
             message :=
               Some ("Are you sure you want to mark " ++ Js.dquote
                       ++ Js.to_key (itemName it) ++ Js.dquote
                       ++ " as returned? This action will notify the owner.");
             onConfirm := Some (ConfirmReturn it);
             onCancel := Some Dismiss |} s
  | None => s
  end.

(** Running a closure of the modal. For [ConfirmReturn] this is the
    [onConfirm] of App.jsx 978-988. *)
Definition run_action (a : ModalAction) (ok : bool) (s : AppState)
  : AppState * list write :=
  match a with
  | NoOp => (s, [])
  | Dismiss => (setModal closed_modal s, [])
  | ConfirmReturn it =>
      let s1 := setModal closed_modal s in
      let failed :=
        setModal (notice "Error" "Failed to update item status.") s1 in
      match item_id it with
      | Some i =>
          if negb (db s) || negb (Js.truthy (Some i)) then (failed, [])
          else if ok then
            (setModal
               (notice "Success"
                  "Item marked as returned! Thank you for your honesty.")
               (setSelectedItem
                  (Some (with_status "returned"
                           (default undefined_item (selectedItem s1)))) s1),
             [MarkReturned i])
          else (failed, [MarkReturned i])
      | None => (failed, [])
      end
  end.

(** The buttons of [CustomModal] (App.jsx 121-150): Cancel is rendered
    only with an [onCancel]. *)
Definition clickModalConfirm (s : AppState) (ok : bool) : AppState * list write :=
  if isOpen (modal s) then
    match onConfirm (modal s) with
    | Some a => run_action a ok s
    | None => (s, [])
    end
  else (s, []).

Definition clickModalCancel (s : AppState) : AppState * list write :=
  if isOpen (modal s) then
    match onCancel (modal s) with
    | Some a => run_action a true s
    | None => (s, [])
    end
  else (s, []).

(** [handleLogout] (App.jsx 828-835): [if (auth) { await signOut(auth);
    setSelectedItem(null); setSelectedUser(null); setSelectedChat(null); }].
    [ok] says whether [signOut] resolved. When it did, the auth listener's
    callback has run with no user: [setUserId(null); setView('login')]
    (App.jsx 728-732). When it rejected the handler stops at the [await]
    and nothing is cleared. *)
Definition handleLogout (s : AppState) (ok : bool) : AppState :=
  if auth s then
    if ok then
      setView login
        (setUserId None
           (setSelectedChat None (setSelectedUser None (setSelectedItem None s))))
    else s
  else s.

(** Every modal the component opens has no Cancel button or one that only
    closes it. *)
Definition cancel_only_dismisses (m : Modal) : Prop :=
  onCancel m = None \/ onCancel m = Some Dismiss.

(** ** Derived values of a render *)

(** [const currentItem = items[selectedItem?.id] || selectedItem] *)
Definition currentItem (s : AppState) : option Item :=
  match Js.get undefined_item (items s)
          (Js.to_key (selectedItem s ≫= item_id)) with
  | Some it => Some it
  | None => selectedItem s
  end.

(** [b.createdAt?.seconds || 0] *)
Definition createdSeconds (it : Item) : Z :=
  match createdAt it with
  | Some t => if seconds t =? 0 then 0 else seconds t
  | None => 0
  end.

(** The comparator of [myItems] (App.jsx 1014-1019). *)
Definition compareItems (a b : Item) : Z :=
  if has_status "missing" a && negb (has_status "missing" b) then -1
  else if negb (has_status "missing" a) && has_status "missing" b then 1
  else createdSeconds b - createdSeconds a.

(** [myItems] (App.jsx 1014-1019) *)
Definition myItems (s : AppState) : list Item :=
  Js.sort_by compareItems
    (List.filter (fun item => Js.strict_eq (ownerId item) (userId s))
       (Js.values (items s))).

(** What [UserProfileView] (App.jsx 529-591) shows for [currentItem]. *)
Definition isOwner (s : AppState) : bool :=
  Js.strict_eq (currentItem s ≫= ownerId) (userId s).

Definition isReturned (s : AppState) : bool :=
  match currentItem s with
  | Some it => has_status "returned" it
  | None => false
  end.

(** The badge [STATUS: RETURNED | MISSING]. *)
Definition visibleStatus (s : AppState) : string :=
  if isReturned s then "RETURNED" else "MISSING".

(** [renderView] shows [UserProfileView] in view ['user-profile'] when
    [selectedUser] and [currentItem] are set; the two buttons are rendered
    for a non-owner, the first only while the item is not returned, the
    second disabled once it is. *)
Definition profileShown (s : AppState) : bool :=
  match view s, selectedUser s, currentItem s with
  | user_profile, Some _, Some _ => true
  | _, _, _ => false
  end.

Definition canContact (s : AppState) : bool :=
  profileShown s && negb (isOwner s) && negb (isReturned s).

Definition canMarkReturned (s : AppState) : bool :=
  profileShown s && negb (isOwner s) && negb (isReturned s).

(** ** What can happen to a signed-in [App]

    One event is one click, form submission or listener callback, carrying
    what the awaited store calls of its handler answered; a handler runs to
    completion within its event. *)
Inductive event :=
  | Navigate (v : View)
  | SubmitItem (itemName description newId : string) (ok : bool)
  | SubmitScan (input : string) (read : option string -> ReadResult)
  | ClickContact (ok : bool)
  | ClickMarkReturned
  | ModalConfirm (ok : bool)
  | ModalCancel
  | SendMessage (message newId : string) (ok1 ok2 : bool)
  | Logout (ok : bool)
  | ItemsSnapshot (docs : gmap string Item)
  | UsersSnapshot (docs : gmap string Profile) (userProfile : Profile)
  | ChatsSnapshot (docs : gmap string Chat)
  | MessagesSnapshot (msgs : list Message).

Definition is_view (v w : View) : bool :=
  match v, w with
  | login, login | profile_setup, profile_setup | dashboard, dashboard
  | add_item, add_item | item_qr, item_qr | scan, scan
  | user_profile, user_profile | chat, chat => true
  | _, _ => false
  end.

(** The [setView] buttons of the views as [renderView] shows them. *)
Definition nav_button (s : AppState) (target : View) : bool :=
  match view s, target with
  | dashboard, add_item => true
  | dashboard, scan => true
  | dashboard, item_qr => negb (bool_decide (myItems s = []))
  | add_item, dashboard | item_qr, dashboard | scan, dashboard => true
  | user_profile, dashboard => profileShown s
  | chat, user_profile =>
      match selectedChat s, selectedUser s with
      | Some _, Some _ => true
      | _, _ => false
      end
  | _, _ => false
  end.

(** [{ id: doc.id, ...doc.data() }] for a chat document. *)
Definition with_chat_id (k : string) (c : Chat) : Chat :=
  {| chat_id := match chat_id c with Some i => Some i | None => Some k end;
     participants := participants c; itemId := itemId c;
     lastMessageAt := lastMessageAt c; messages := messages c |}.

Definition step (s : AppState) (e : event) : AppState * list write :=
  match e with
  | Navigate v => if nav_button s v then (setView v s, []) else (s, [])
  | SubmitItem nm descr newId ok =>
      if is_view (view s) add_item && Js.truthy (Some (Js.trim nm)) then
        handleAddItem s (Js.trim nm) (Js.trim descr) newId ok
      else (s, [])
  | SubmitScan input read =>
      if is_view (view s) scan then ((handleSubmit s read input).1.1, [])
      else (s, [])
  | ClickContact ok => if canContact s then handleStartChat s ok else (s, [])
  | ClickMarkReturned =>
      if canMarkReturned s then (handleMarkReturned s, []) else (s, [])
  | ModalConfirm ok => clickModalConfirm s ok
  | ModalCancel => clickModalCancel s
  | SendMessage txt newId ok1 ok2 =>
      match view s, selectedChat s, selectedUser s with
      | chat, Some _, Some _ =>
          if Js.truthy (Some (Js.trim txt)) then
            handleSendMessage s (Js.trim txt) newId ok1 ok2
          else (s, [])
      | _, _, _ => (s, [])
      end
  | Logout ok =>
      if is_view (view s) dashboard then (handleLogout s ok, []) else (s, [])
  | ItemsSnapshot docs =>
      (setItems (map_imap (fun k d => Some (with_id k d)) docs) s, [])
  | UsersSnapshot docs userProfile =>
      (setUsers (<[Js.to_key (uid userProfile) := userProfile]> docs) s, [])
  | ChatsSnapshot docs =>
      (setChats (map_imap (fun k d => Some (with_chat_id k d)) docs) s, [])
  | MessagesSnapshot msgs =>
      (setSelectedChat
         (Some (with_messages msgs (default undefined_chat (selectedChat s)))) s,
       [])
  end.

(** ** The message listener (App.jsx 994-1010)

    [useEffect(effect, [selectedChat?.id])]: after a render React compares
    the dependency with the one of the last run; when it differs it calls
    the cleanup the last run returned and runs the effect again. *)
Inductive subscription :=
  | Subscribe (chatId : string)       (* onSnapshot(q, ...) on the messages of the chat *)
  | Unsubscribe (chatId : string).    (* the function onSnapshot answered *)

Record Listener := {
  lastDeps : option (option string);  (* [selectedChat?.id] at the last run *)
  live : option string;               (* the chat whose listener is attached *)
}.

Definition messagesEffect (s : AppState) (l : Listener)
  : Listener * list subscription :=
  let dep : option string := selectedChat s ≫= chat_id in
  if bool_decide (lastDeps l = Some dep) then (l, [])
  else
    let cleanup :=
      match live l with
      | Some c => [Unsubscribe c]
      | None => []
      end in
    match selectedChat s with
    | Some c =>
        match chat_id c with
        | Some i =>
            if db s then
              ({| lastDeps := Some dep; live := Some i |}, (cleanup ++ [Subscribe i])%list)
            else ({| lastDeps := Some dep; live := None |}, cleanup)
        | None => ({| lastDeps := Some dep; live := None |}, cleanup)
        end
    | None => ({| lastDeps := Some dep; live := None |}, cleanup)
    end.

(** [App] together with its listener: an event, the render it causes and
    the effect of that render. A callback of the message listener only
    arrives while the listener is attached. *)
Record Session := {
  app : AppState;
  listener : Listener;
}.

(** Between events the effect has run for the state on screen, and the
    listener attached, if any, is the one that run installed. *)
Definition session_ok (σ : Session) : Prop :=
  lastDeps (listener σ) = Some (selectedChat (app σ) ≫= chat_id)
  /\ match live (listener σ) with
     | Some c => lastDeps (listener σ) = Some (Some c)
     | None => True
     end.

Definition session_step (σ : Session) (e : event)
  : Session * list write * list subscription :=
  let '(s', ws) :=
    match e, live (listener σ) with
    | MessagesSnapshot _, None => (app σ, [])
    | _, _ => step (app σ) e
    end in
  let '(l', subs) := messagesEffect s' (listener σ) in
  ({| app := s'; listener := l' |}, ws, subs).

Definition run (σ : Session) (es : list event) : Session :=
  foldl (fun acc e => (session_step acc e).1.1) σ es.

(** ** A concrete session

    Two principals [u1] and [u2]; [u1] registered a backpack, [u2] a set of
    keys. The states below are the ones the examples are evaluated on. *)

Module Scenario.

Definition backpack : Item :=
  {| item_id := Some "itemX"; itemName := Some "Blue Backpack";
     description := Some "left pocket torn"; ownerId := Some "u1";
     status := Some "missing"; createdAt := Some {| seconds := 1700000000 |} |}.

Definition keys : Item :=
  {| item_id := Some "itemY"; itemName := Some "Keys";
     description := Some EmptyString; ownerId := Some "u2";
     status := Some "missing"; createdAt := Some {| seconds := 1700000100 |} |}.

Definition profile1 : Profile :=
  {| uid := Some "u1"; name := Some "Ada"; email := Some "ada@example.org";
     photoURL := None |}.

Definition profile2 : Profile :=
  {| uid := Some "u2"; name := Some "Bo"; email := Some "bo@example.org";
     photoURL := None |}.

Definition registry : gmap string Item :=
  <["itemX" := backpack]> (<["itemY" := keys]> ∅).

Definition directory : gmap string Profile :=
  <["u1" := profile1]> (<["u2" := profile2]> ∅).

Definition initial_modal : Modal :=
  {| isOpen := false; title := Some EmptyString; message := Some EmptyString;
     onConfirm := Some NoOp; onCancel := None |}.

(** [u2] on the scan view, nothing selected. *)
Definition finder_scanning : AppState :=
  {| db := true; auth := true;
     userId := Some "u2"; users := directory; items := registry;
     chats := ∅; view := scan; selectedItem := None; selectedUser := None;
     selectedChat := None; modal := initial_modal |}.

(** [u2] looking at the owner of the backpack. *)
Definition finder_at_owner : AppState :=
  setView user_profile
    (setSelectedUser (Some profile1) (setSelectedItem (Some backpack) finder_scanning)).

(** [u1] looking at the owner of the keys. *)
Definition owner_at_finder : AppState :=
  {| db := true; auth := true;
     userId := Some "u1"; users := directory; items := registry;
     chats := ∅; view := user_profile; selectedItem := Some keys;
     selectedUser := Some profile2; selectedChat := None;
     modal := initial_modal |}.

(** An item [u1] has just registered: the server time has not arrived. *)
Definition umbrella : Item :=
  {| item_id := Some "itemZ"; itemName := Some "Umbrella";
     description := Some "red"; ownerId := Some "u1";
     status := Some "missing"; createdAt := None |}.

Definition wallet : Item :=
  {| item_id := Some "itemW"; itemName := Some "Wallet";
     description := Some "brown"; ownerId := Some "u1";
     status := Some "returned"; createdAt := Some {| seconds := 1700000500 |} |}.

Definition scarf : Item :=
  {| item_id := Some "itemV"; itemName := Some "Scarf";
     description := Some "wool"; ownerId := Some "u1";
     status := Some "returned"; createdAt := Some {| seconds := 1700000900 |} |}.

(** [u1] on the dashboard with five items in the snapshot, four their own. *)
Definition owner_dashboard : AppState :=
  {| db := true; auth := true;
     userId := Some "u1"; users := directory;
     items := <["itemW" := wallet]> (<["itemZ" := umbrella]>
                (<["itemV" := scarf]> registry));
     chats := ∅; view := dashboard; selectedItem := None;
     selectedUser := None; selectedChat := None; modal := initial_modal |}.

(** The store once the backpack has been marked returned, and [u2]'s view
    of the owner after the snapshot with that status arrived. *)
Definition store_after_return : Store :=
  {| items_col :=
       <["itemX" := with_status "returned" backpack]> (<["itemY" := keys]> ∅);
     chats_col := ∅; messages_col := ∅ |}.

Definition finder_after_return : AppState :=
  setItems (<["itemX" := with_status "returned" backpack]> registry)
    finder_at_owner.

Definition empty_store : Store :=
  {| items_col := ∅; chats_col := ∅; messages_col := ∅ |}.

(** [u2] on the scan view before the profile listener delivered anything. *)
Definition finder_uncached : AppState := setUsers ∅ finder_scanning.

(** [u1] on the scan view. *)
Definition owner_scanning : AppState := setUserId (Some "u1") finder_scanning.

(** A Profile Store holding both profiles; a reference built from
    [undefined] throws. *)
Definition profile_store (uid : option string) : ReadResult :=
  match uid with
  | Some u =>
      if String.eqb u "u1" then ReadFound profile1
      else if String.eqb u "u2" then ReadFound profile2
      else ReadMissing
  | None => ReadFailed
  end.

(** A Profile Store without the owner's document. *)
Definition no_profile (_ : option string) : ReadResult := ReadMissing.

(** A Profile Store that refuses every read. *)
Definition refused (_ : option string) : ReadResult := ReadFailed.

(** [u2] looking at the owner, no chat selected yet; then in the chat
    opened by the contact button. *)
Definition session_at_owner : Session :=
  {| app := finder_at_owner;
     listener := {| lastDeps := Some None; live := None |} |}.

Definition session_chatting : Session :=
  run session_at_owner [ClickContact true].

Definition hello : Message :=
  {| message_id := Some "m1"; senderId := Some "u1";
     text := Some "Thank you!"; timestamp := Some {| seconds := 1700000200 |} |}.

End Scenario.

(** ** Configuration (App.jsx 31-85)

    A configuration object through the fields the program names; each is
    a string or absent. *)
Record Config := {
  apiKey : option string;
  authDomain : option string;
  projectId : option string;
  storageBucket : option string;
  messagingSenderId : option string;
  appId : option string;
}.

(** [{}] *)
Definition empty_config : Config :=
  {| apiKey := None; authDomain := None; projectId := None;
     storageBucket := None; messagingSenderId := None; appId := None |}.

(** [getLocalConfig] (App.jsx 36-53); [env] is [import.meta.env] with its
    [VITE_FIREBASE_*] variables, absent where there is no [import.meta]. *)
Definition getLocalConfig (env : option Config) : Config :=
  match env with
  | None => empty_config
  | Some e => e
  end.

(** [isValidConfig] (App.jsx 55-57) *)
Definition isValidConfig (config : Config) : bool :=
  Js.truthy (apiKey config)
  && (5 <? String.length (Js.to_key (apiKey config)))%nat.

(** The configuration the module settles on (App.jsx 59-68). *)
Definition firebaseConfig (canvasConfig : Config) (env : option Config) : Config :=
  if negb (isValidConfig canvasConfig) then
    let tempLocalConfig := getLocalConfig env in
    if isValidConfig tempLocalConfig then tempLocalConfig else canvasConfig
  else canvasConfig.

(** The module-level handles after initialisation (App.jsx 70-85). *)
Record Firebase := {
  has_app : bool;
  has_db : bool;
  has_auth : bool;
  firebaseInitialized : bool;
}.

(** Which of [initializeApp], [getFirestore], [getAuth] throws, if any. *)
Inductive InitFault := AppThrows | FirestoreThrows | AuthThrows.

Definition initialise (config : Config) (fault : option InitFault) : Firebase :=
  if isValidConfig config then
    match fault with
    | Some AppThrows =>
        {| has_app := false; has_db := false; has_auth := false;
           firebaseInitialized := false |}
    | Some FirestoreThrows =>
        {| has_app := true; has_db := false; has_auth := false;
           firebaseInitialized := false |}
    | Some AuthThrows =>
        {| has_app := true; has_db := true; has_auth := false;
           firebaseInitialized := false |}
    | None =>
        {| has_app := true; has_db := true; has_auth := true;
           firebaseInitialized := true |}
    end
  else
    {| has_app := false; has_db := false; has_auth := false;
       firebaseInitialized := false |}.

(** ** Identity and profile (App.jsx 704-812, 837-867) *)

(** The Firebase Auth user, through the fields the program reads. *)
Record User := {
  user_uid : string;
  user_email : option string;
  user_displayName : option string;
  user_photoURL : option string;
}.

(** The private profile document as [userProfile] holds it. *)
Record UserProfile := {
  profile : Profile;
  profile_createdAt : option Timestamp;
  profile_updatedAt : option Timestamp;
}.

(** [App] with the state cells of its identity part. *)
Record Shell := {
  core : AppState;
  user : option User;
  isAuthReady : bool;
  userProfile : option UserProfile;
}.

Definition setCore (s : AppState) (sh : Shell) : Shell :=
  {| core := s; user := user sh; isAuthReady := isAuthReady sh;
     userProfile := userProfile sh |}.

Definition setUserProfile (p : option UserProfile) (sh : Shell) : Shell :=
  {| core := core sh; user := user sh; isAuthReady := isAuthReady sh;
     userProfile := p |}.

(** [v || fallback] for a string or absent [v]. *)
Definition or_else (v : option string) (fallback : string) : string :=
  match v with
  | Some s => if Js.truthy (Some s) then s else fallback
  | None => fallback
  end.

(** The callback of [onAuthStateChanged] (App.jsx 724-734). *)
Definition onAuthStateChanged (currentUser : option User) (sh : Shell) : Shell :=
  match currentUser with
  | Some u =>
      {| core := setUserId (Some (user_uid u)) (core sh); user := Some u;
         isAuthReady := true; userProfile := userProfile sh |}
  | None =>
      {| core := setView login (setUserId None (core sh)); user := None;
         isAuthReady := true; userProfile := userProfile sh |}
  end.

(** The profile effect (App.jsx 741-769) attaches its listener under this
    condition and otherwise clears [userProfile]. *)
Definition profileListenerOn (sh : Shell) : bool :=
  Js.truthy (userId (core sh)) && db (core sh) && isAuthReady sh.

Definition profileEffect (sh : Shell) : Shell :=
  if profileListenerOn sh then sh else setUserProfile None sh.

(** [{ uid: userId, name: 'Anonymous User', email: user?.email || 'N/A',
    photoURL: user?.photoURL || '' }] *)
Definition placeholder (sh : Shell) : UserProfile :=
  {| profile :=
       {| uid := userId (core sh); name := Some "Anonymous User";
          email := Some (or_else (user sh ≫= user_email) "N/A");
          photoURL := Some (or_else (user sh ≫= user_photoURL) EmptyString) |};
     profile_createdAt := None; profile_updatedAt := None |}.

(** [profile.name === 'Anonymous User'] *)
Definition is_anonymous (p : UserProfile) : bool :=
  Js.strict_eq (name (profile p)) (Some "Anonymous User").

(** The callback of the profile listener (App.jsx 749-764); [docSnap] is
    the document's data when it exists. *)
Definition onProfileSnapshot (docSnap : option UserProfile) (sh : Shell) : Shell :=
  match docSnap with
  | Some p =>
      let sh' := setUserProfile (Some p) sh in
      if negb (is_anonymous p) && is_view (view (core sh)) login then
        setCore (setView dashboard (core sh)) sh'
      else sh'
  | None =>
      let sh' := setUserProfile (Some (placeholder sh)) sh in
      if negb (is_view (view (core sh)) profile_setup) then
        setCore (setView profile_setup (core sh)) sh'
      else sh'
  end.

(** The data effect (App.jsx 773-812) attaches the items, users and chats
    listeners under this condition. *)
Definition dataListenersOn (sh : Shell) : bool :=
  Js.truthy (userId (core sh)) && db (core sh) && isAuthReady sh
  && match userProfile sh with
     | Some p => negb (is_anonymous p)
     | None => false
     end.

(** The profile documents: the private one under [users/<uid>] and the
    public copy in [user_profiles]. *)
Record ProfileStore := {
  user_docs : gmap string UserProfile;
  user_profiles_col : gmap string Profile;
}.

(** The two calls of [handleProfileSetup]; a [createdAt] of [None] stands
    for [serverTimestamp()]. *)
Inductive profile_write :=
  | SetUserDoc (uid name email photoURL : string) (createdAt : option Timestamp)
  | SetPublicProfile (uid name photoURL email : string).

(** Both are merge writes of every field these records have. *)
Definition apply_profile_write (now : Z) (w : profile_write) (st : ProfileStore)
  : ProfileStore :=
  match w with
  | SetUserDoc u nm em ph created =>
      {| user_docs :=
           <[u := {| profile := {| uid := Some u; name := Some nm;
                                   email := Some em; photoURL := Some ph |};
                     profile_createdAt :=
                       match created with
                       | Some t => Some t
                       | None => Some {| seconds := now |}
                       end;
                     profile_updatedAt := Some {| seconds := now |} |}]>
             (user_docs st);
         user_profiles_col := user_profiles_col st |}
  | SetPublicProfile u nm ph em =>
      {| user_docs := user_docs st;
         user_profiles_col :=
           <[u := {| uid := Some u; name := Some nm; email := Some em;
                     photoURL := Some ph |}]> (user_profiles_col st) |}
  end.

Definition apply_profile_writes (now : Z) (ws : list profile_write)
    (st : ProfileStore) : ProfileStore :=
  foldl (fun acc w => apply_profile_write now w acc) st ws.

(** [handleProfileSetup] (App.jsx 837-867); [ok1] and [ok2] settle the two
    awaited calls. *)
Definition handleProfileSetup (sh : Shell) (nm photo : string) (ok1 ok2 : bool)
  : Shell * list profile_write :=
  match userId (core sh) with
  | Some u =>
      if negb (Js.truthy (Some u)) || negb (db (core sh)) then (sh, [])
      else
        let em := or_else (user sh ≫= user_email) "N/A" in
        let w1 := SetUserDoc u nm em photo (userProfile sh ≫= profile_createdAt) in
        let w2 := SetPublicProfile u nm photo em in
        let failed :=
          setCore (setModal (notice "Error"
                     "Failed to save profile. Please try again.") (core sh)) sh in
        if negb ok1 then (failed, [w1])
        else if negb ok2 then (failed, [w1; w2])
        else (setCore (setView dashboard (core sh)) sh, [w1; w2])
  | None => (sh, [])
  end.

(** [ProfileSetupView]'s [handleSubmit] (App.jsx 222-226); [photo] is
    [null] until a picture is chosen. *)
Definition profileSetupSubmit (sh : Shell) (nm : string) (photo : option string)
    (ok1 ok2 : bool) : Shell * list profile_write :=
  match photo with
  | Some ph =>
      if Js.truthy (Some (Js.trim nm)) && Js.truthy (Some ph) then
        handleProfileSetup sh (Js.trim nm) ph ok1 ok2
      else (sh, [])
  | None => (sh, [])
  end.

(** [s.split(' ')[0]] *)
Fixpoint firstWord (s : string) : string :=
  match s with
  | EmptyString => EmptyString
  | String c s' =>
      if Ascii.eqb c " " then EmptyString else String c (firstWord s')
  end.

(** The name in the dashboard header,
    [userProfile?.name.split(' ')[0] || 'User'] (App.jsx 301); [None] when
    reading [split] of an absent name throws. *)
Definition greeting (p : option UserProfile) : option string :=
  match p with
  | None => Some "User"
  | Some up =>
      match name (profile up) with
      | Some n => Some (or_else (Some (firstWord n)) "User")
      | None => None
      end
  end.

(** ** The QR image address (App.jsx 154-156) *)

(** The upper-case hexadecimal digit of [n < 16]. *)
Definition hex_digit (n : N) : ascii :=
  ascii_of_N (if (n <? 10)%N then 48 + n else 55 + n)%N.

(** [%XY] for the byte [n]. *)
Definition percent (n : N) : string :=
  String "%" (String (hex_digit (n / 16)) (String (hex_digit (n mod 16)) EmptyString)).

(** The characters [encodeURIComponent] leaves alone: letters, digits and
    [- _ . ! ~ * ' ( )]. *)
Definition is_unreserved (c : ascii) : bool :=
  let n := N_of_ascii c in
  ((48 <=? n) && (n <=? 57) || (65 <=? n) && (n <=? 90)
   || (97 <=? n) && (n <=? 122)
   || (n =? 45) || (n =? 95) || (n =? 46) || (n =? 33) || (n =? 126)
   || (n =? 42) || (n =? 39) || (n =? 40) || (n =? 41))%N.

(** One code unit below 256: itself, or the bytes of its UTF-8 encoding
    (one byte below 128, two from 128 on), percent-escaped. *)
Definition encode_unit (c : ascii) : string :=
  let n := N_of_ascii c in
  if is_unreserved c then String c EmptyString
  else if (n <? 128)%N then percent n
  else percent (192 + n / 64) ++ percent (128 + n mod 64).

Fixpoint encodeURIComponent (s : string) : string :=
  match s with
  | EmptyString => EmptyString
  | String c s' => encode_unit c ++ encodeURIComponent s'
  end.

(** [generateQRCode] (App.jsx 154-156); an absent [text] is written out as
    [undefined]. *)
Definition generateQRCode (text : option string) : string :=
  "https://api.qrserver.com/v1/create-qr-code/?size=300x300&data="
  ++ encodeURIComponent (Js.to_key text).

(** Reading one escaped unit back from the front of a string; it serves
    to show that the escaping loses nothing. *)
Definition hex_value (c : ascii) : N :=
  let n := N_of_ascii c in
  (if n <? 58 then n - 48 else n - 55)%N.

Definition decode_unit (s : string) : option (ascii * string) :=
  match s with
  | String "%" (String h1 (String h2 rest)) =>
      let b := (hex_value h1 * 16 + hex_value h2)%N in
      if (b <? 128)%N then Some (ascii_of_N b, rest)
      else
        match rest with
        | String "%" (String h3 (String h4 rest')) =>
            let b' := (hex_value h3 * 16 + hex_value h4)%N in
            Some (ascii_of_N ((b - 192) * 64 + (b' - 128)), rest')
        | _ => None
        end
  | String c rest => Some (c, rest)
  | EmptyString => None
  end.

(** Every code unit of [s] satisfies [p]. *)
Fixpoint every_unit (p : ascii -> bool) (s : string) : bool :=
  match s with
  | EmptyString => true
  | String c s' => p c && every_unit p s'
  end.

(** [s.includes(c)] for a single code unit [c]. *)
Fixpoint has_unit (c : ascii) (s : string) : bool :=
  match s with
  | EmptyString => false
  | String d s' => Ascii.eqb c d || has_unit c s'
  end.

(** An event whose awaited store call (for a message, one of the two)
    rejects. *)
Definition rejected (e : event) : bool :=
  match e with
  | SubmitItem _ _ _ false => true
  | ClickContact false => true
  | SendMessage _ _ false _ => true
  | SendMessage _ _ true false => true
  | ModalConfirm false => true
  | _ => false
  end.

(** ** More concrete states *)

Module Cases.

(** [u2] on the form for a new item. *)
Definition finder_adding : AppState := setView add_item Scenario.finder_scanning.

(** The store holding the two registered items, without [id] fields. *)
Definition store0 : Store :=
  {| items_col :=
       <["itemX" := {| item_id := None; itemName := Some "Blue Backpack";
                       description := Some "left pocket torn";
                       ownerId := Some "u1"; status := Some "missing";
                       createdAt := Some {| seconds := 1700000000 |} |}]>
         (<["itemY" := {| item_id := None; itemName := Some "Keys";
                          description := Some EmptyString;
                          ownerId := Some "u2"; status := Some "missing";
                          createdAt := Some {| seconds := 1700000100 |} |}]> ∅);
     chats_col :=
       <["u1_u2" := {| chat_id := None;
                       participants := Some [Some "u1"; Some "u2"];
                       itemId := Some "itemX";
                       lastMessageAt := Some {| seconds := 1700000150 |};
                       messages := None |}]> ∅;
     messages_col := ∅ |}.

(** The same application without a Firestore handle. *)
Definition unconfigured : AppState :=
  {| db := false; auth := false;
     userId := None; users := ∅; items := ∅; chats := ∅;
     view := login; selectedItem := None; selectedUser := None;
     selectedChat := None; modal := Scenario.initial_modal |}.

(** [u2] on the dashboard. *)
Definition finder_dashboard : AppState :=
  setView dashboard Scenario.finder_scanning.

(** A configuration as the canvas environment passes it, and one from
    the local environment file. *)
Definition canvas_config : Config :=
  {| apiKey := Some "AIzaSy-canvas"; authDomain := Some "canvas.example.org";
     projectId := Some "canvas"; storageBucket := None;
     messagingSenderId := None; appId := Some "1:1:web:1" |}.

Definition local_config : Config :=
  {| apiKey := Some "AIzaSy-local"; authDomain := Some "local.example.org";
     projectId := Some "local"; storageBucket := None;
     messagingSenderId := None; appId := Some "1:2:web:2" |}.

(** [u2] signed in for the first time, on the profile form. *)
Definition newcomer : Shell :=
  {| core := setView profile_setup (setUsers ∅ (setItems ∅ Scenario.finder_scanning));
     user := Some {| user_uid := "u2"; user_email := Some "bo@example.org";
                     user_displayName := Some "Bo B"; user_photoURL := None |};
     isAuthReady := true;
     userProfile := None |}.

Definition no_profiles : ProfileStore :=
  {| user_docs := ∅; user_profiles_col := ∅ |}.

(** The application right after loading, signed in, before the profile
    listener has answered. *)
Definition loading : Shell :=
  {| core := setView login (core newcomer); user := user newcomer;
     isAuthReady := true; userProfile := None |}.

(** [u2] back on the dashboard after a chat. *)
Definition session_after_chat : Session :=
  run Scenario.session_chatting [Navigate user_profile; Navigate dashboard].

(** [u2] back at the owner view from the chat, in which a message had
    arrived. *)
Definition session_back_at_owner : Session :=
  run Scenario.session_chatting
    [MessagesSnapshot [Scenario.hello]; Navigate user_profile].





(** Items whose [ownerId] is the name of a member of [Object.prototype],
    in the snapshot of [u2] on the scan view. *)
Definition odd (owner : string) : Item :=
  {| item_id := Some "odd"; itemName := Some "Glove"; description := Some "left";
     ownerId := Some owner; status := Some "missing";
     createdAt := Some {| seconds := 1700000300 |} |}.

Definition finder_with_odd_owners : AppState :=
  setItems (<["odd1" := odd "isPrototypeOf"]>
              (<["odd2" := odd "valueOf"]> Scenario.registry))
    Scenario.finder_scanning.

End Cases.

(** * Properties *)

(** ** Sorting *)

Section SortFacts.
Context {A : Type} (cmp : A -> A -> Z).

Hypothesis cmp_total : forall a b, cmp a b <= 0 \/ cmp b a <= 0.
Hypothesis cmp_trans :
  forall a b c, cmp a b <= 0 -> cmp b c <= 0 -> cmp a c <= 0.

Lemma insert_sorted_perm (x : A) (l : list A) :
  Js.insert_sorted cmp x l ≡ₚ x :: l.
Proof.
  induction l as [|y l IH]; simpl; [done|].
  destruct (cmp x y <=? 0); [done|].
  rewrite IH. apply Permutation_swap.
Qed.

Lemma sort_by_perm (l : list A) : Js.sort_by cmp l ≡ₚ l.
Proof.
  induction l as [|x l IH]; simpl; [done|].
  rewrite insert_sorted_perm. by rewrite IH.
Qed.

Lemma insert_sorted_sorted (x : A) (l : list A) :
  StronglySorted (fun a b => cmp a b <= 0) l ->
  StronglySorted (fun a b => cmp a b <= 0) (Js.insert_sorted cmp x l).
Proof.
  induction 1 as [|y l Hl IH Hy]; simpl.
  - repeat constructor.
  - destruct (Z.leb_spec (cmp x y) 0) as [Hxy|Hxy].
    + constructor; [by constructor|].
      constructor; [done|].
      eapply Forall_impl; [exact Hy|]. simpl. intros z Hz. by eapply cmp_trans.
    + constructor; [done|].
      rewrite insert_sorted_perm. constructor; [|done].
      destruct (cmp_total x y) as [H|H]; [lia|done].
Qed.

Lemma sort_by_sorted (l : list A) :
  StronglySorted (fun a b => cmp a b <= 0) (Js.sort_by cmp l).
Proof.
  induction l as [|x l IH]; simpl; [constructor|].
  by apply insert_sorted_sorted.
Qed.




End SortFacts.

(** In a strongly sorted list the element at the smaller index is related
    to the one at the larger index. *)
Lemma StronglySorted_lookup {A : Type} (R : A -> A -> Prop) (l : list A)
    (i j : nat) (x y : A) :
  StronglySorted R l -> l !! i = Some x -> l !! j = Some y -> (i < j)%nat ->
  R x y.
Proof.
  intros Hs. revert i j. induction Hs as [|z l Hl IH Hz]; intros i j Hi Hj Hij.
  - by rewrite lookup_nil in Hi.
  - destruct j as [|j]; [lia|]. destruct i as [|i]; simpl in *.
    + injection Hi as <-. rewrite Forall_forall in Hz.
      apply Hz. eapply list_elem_of_lookup_2. exact Hj.
    + eapply IH; eauto. lia.
Qed.

(** ** Chat identifiers and chat initiation *)

Lemma sort_default_pair_comm (x y : option string) :
  Js.sort_default [x; y] = Js.sort_default [y; x].
Proof.
  destruct x as [a|], y as [b|]; try reflexivity.
  unfold Js.sort_default; simpl. f_equal.
  unfold Js.default_compare. rewrite (String.compare_antisym a b).
  destruct (String.compare b a) eqn:Hc; simpl; try reflexivity.
  apply String.compare_eq_iff in Hc. by subst.
Qed.

Lemma getChatDocId_comm (x y : option string) :
  getChatDocId x y = getChatDocId y x.
Proof. unfold getChatDocId. by rewrite sort_default_pair_comm. Qed.

Lemma getChatDocId_nonempty (a b : string) :
  Js.truthy (Some (getChatDocId (Some a) (Some b))) = true.
Proof.
  unfold getChatDocId, Js.sort_default; simpl.
  destruct (Js.default_compare a b <=? 0); simpl.
  - destruct a; reflexivity.
  - destruct b; reflexivity.
Qed.

Lemma handleStartChat_write (s : AppState) (ok : bool) (u o : string)
    (it : Item) (p : Profile) :
  db s = true -> userId s = Some u -> Js.truthy (Some u) = true ->
  selectedItem s = Some it -> ownerId it = Some o -> selectedUser s = Some p ->
  (handleStartChat s ok).2
  = [UpsertChat (getChatDocId (Some u) (Some o))
       (Js.sort_default [Some u; Some o]) (item_id it)].
Proof.
  intros Hdb Hu Ht Hit Ho Hp. unfold handleStartChat.
  rewrite Hit, Hp, Hu, Ht, Hdb, Ho, getChatDocId_nonempty.
  by destruct ok.
Qed.

Lemma apply_upsert_dom (now : Z) (cid : string) ps it (st : Store) :
  dom (chats_col (apply_write now (UpsertChat cid ps it) st))
  = {[cid]} ∪ dom (chats_col st).
Proof. simpl. by rewrite dom_insert_L. Qed.

Lemma apply_upsert_participants (now : Z) (cid : string) ps it (st : Store) :
  participants <$> chats_col (apply_write now (UpsertChat cid ps it) st) !! cid
  = Some (Some ps).
Proof. simpl. by rewrite lookup_insert_eq. Qed.

(** C1. Whoever of two principals [a] and [b] starts the chat, the chat
    document id is the same ([getChatDocId] is symmetric) and
    [handleStartChat] issues one keyed merge write on that id with the same
    sorted participants. Applied to any store, the first initiation adds at
    most that one key, the other party's initiation adds none and leaves the
    participants as they are, and repeating an initiation at the same
    server time changes nothing. *)
Theorem chat_initiation_converges (a b : string) (sA sB : AppState)
    (itA itB : Item) (pA pB : Profile) (okA okB : bool) (now1 now2 : Z)
    (st : Store) :
  Js.truthy (Some a) = true -> Js.truthy (Some b) = true ->
  db sA = true -> userId sA = Some a ->
  selectedItem sA = Some itB -> ownerId itB = Some b -> selectedUser sA = Some pB ->
  db sB = true -> userId sB = Some b ->
  selectedItem sB = Some itA -> ownerId itA = Some a -> selectedUser sB = Some pA ->
  let cid := getChatDocId (Some a) (Some b) in
  let ps := Js.sort_default [Some a; Some b] in
  let wsA := (handleStartChat sA okA).2 in
  let wsB := (handleStartChat sB okB).2 in
  let st1 := apply_writes now1 wsA st in
  let st2 := apply_writes now2 wsB st1 in
  getChatDocId (Some b) (Some a) = cid
  /\ wsA = [UpsertChat cid ps (item_id itB)]
  /\ wsB = [UpsertChat cid ps (item_id itA)]
  /\ dom (chats_col st1) = {[cid]} ∪ dom (chats_col st)
  /\ dom (chats_col st2) = dom (chats_col st1)
  /\ participants <$> chats_col st1 !! cid = Some (Some ps)
  /\ participants <$> chats_col st2 !! cid = Some (Some ps)
  /\ apply_writes now1 wsA st1 = st1.
Proof.
  intros Ha Hb HdA HuA HiA HoB HpA HdB HuB HiB HoA HpB cid ps wsA wsB st1 st2.
  assert (EA : wsA = [UpsertChat cid ps (item_id itB)])
    by (by eapply handleStartChat_write).
  assert (EB : wsB = [UpsertChat cid ps (item_id itA)]).
  { subst wsB cid ps. rewrite (getChatDocId_comm (Some a) (Some b)).
    rewrite (sort_default_pair_comm (Some a) (Some b)).
    by eapply handleStartChat_write. }
  split; [apply getChatDocId_comm|].
  split; [done|]. split; [done|].
  subst st2 st1. rewrite EA, EB.
  change (apply_writes now1 [UpsertChat cid ps (item_id itB)] st)
    with (apply_write now1 (UpsertChat cid ps (item_id itB)) st).
  set (st1 := apply_write now1 (UpsertChat cid ps (item_id itB)) st).
  change (apply_writes now2 [UpsertChat cid ps (item_id itA)] st1)
    with (apply_write now2 (UpsertChat cid ps (item_id itA)) st1).
  change (apply_writes now1 [UpsertChat cid ps (item_id itB)] st1)
    with (apply_write now1 (UpsertChat cid ps (item_id itB)) st1).
  split; [apply apply_upsert_dom|].
  split; [subst st1; rewrite !apply_upsert_dom;
          by rewrite (assoc_L (∪)), (idemp_L (∪))|].
  split; [apply apply_upsert_participants|].
  split; [apply apply_upsert_participants|].
  subst st1; simpl. rewrite lookup_insert_eq; simpl. by rewrite insert_insert_eq.
Qed.

Lemma chat_initiation_converges_witness :
  getChatDocId (Some "u1") (Some "u2") = "u1_u2"
  /\ (handleStartChat Scenario.finder_at_owner true).2
     = [UpsertChat "u1_u2" [Some "u1"; Some "u2"] (Some "itemX")]
  /\ (handleStartChat Scenario.owner_at_finder true).2
     = [UpsertChat "u1_u2" [Some "u1"; Some "u2"] (Some "itemY")].
Proof.
  pose proof (chat_initiation_converges "u2" "u1"
    Scenario.finder_at_owner Scenario.owner_at_finder
    Scenario.keys Scenario.backpack Scenario.profile2 Scenario.profile1
    true true 10 20 Scenario.empty_store
    eq_refl eq_refl eq_refl eq_refl eq_refl eq_refl eq_refl
    eq_refl eq_refl eq_refl eq_refl eq_refl) as H.
  cbv zeta in H. destruct H as (H1 & H2 & H3 & _).
  exact (conj H1 (conj H2 H3)).
Defined.

(** ** The "my items" ordering *)

Lemma compareItems_flip (a b : Item) : compareItems b a = - compareItems a b.
Proof.
  unfold compareItems.
  destruct (has_status "missing" a), (has_status "missing" b); simpl; lia.
Qed.

Lemma compareItems_total (a b : Item) :
  compareItems a b <= 0 \/ compareItems b a <= 0.
Proof. rewrite (compareItems_flip a b). lia. Qed.

Lemma compareItems_trans (a b c : Item) :
  compareItems a b <= 0 -> compareItems b c <= 0 -> compareItems a c <= 0.
Proof.
  unfold compareItems.
  destruct (has_status "missing" a), (has_status "missing" b),
    (has_status "missing" c); simpl; lia.
Qed.

(** What [compareItems a b <= 0] says: no item that is not missing stands
    before a missing one, and within a group the earlier one is at least as
    recent. *)
Lemma compareItems_le (a b : Item) :
  compareItems a b <= 0 ->
  (has_status "missing" b = true -> has_status "missing" a = true)
  /\ (has_status "missing" a = has_status "missing" b ->
      createdSeconds b <= createdSeconds a).
Proof.
  unfold compareItems.
  destruct (has_status "missing" a), (has_status "missing" b); simpl;
    intros H; split; intros; try done; lia.
Qed.

Lemma myItems_sorted (s : AppState) :
  StronglySorted (fun a b => compareItems a b <= 0) (myItems s).
Proof.
  apply (sort_by_sorted compareItems);
    [apply compareItems_total | apply compareItems_trans].
Qed.

Lemma elem_of_values {V : Type} (o : gmap string V) (v : V) :
  v ∈ Js.values o <-> exists k, o !! k = Some v.
Proof.
  unfold Js.values. rewrite list_elem_of_fmap. split.
  - intros [[k v'] [-> Hin]]. exists k. by apply elem_of_map_to_list.
  - intros [k Hk]. exists (k, v). split; [done|]. by apply elem_of_map_to_list.
Qed.

Lemma returned_not_missing (it : Item) :
  has_status "returned" it = true -> has_status "missing" it = false.
Proof.
  unfold has_status, Js.strict_eq. destruct (status it) as [st|]; [|done].
  intros H%String.eqb_eq. by subst.
Qed.




Example myItems_owner_dashboard :
  myItems Scenario.owner_dashboard
  = [Scenario.backpack; Scenario.umbrella; Scenario.scarf; Scenario.wallet].
Proof. vm_compute. reflexivity. Qed.

Lemma createdSeconds_stamped (it : Item) (t : Timestamp) :
  createdAt it = Some t -> createdSeconds it = seconds t.
Proof.
  unfold createdSeconds. intros ->.
  destruct (Z.eqb_spec (seconds t) 0) as [->|]; done.
Qed.

(** C10. An item without [createdAt] counts as created at second 0; in
    [myItems] it therefore stands after every item of its status group
    that carries a server timestamp (a positive number of seconds since
    the epoch). The comparator is defined on every pair of items, the two
    ways of comparing a pair agree up to sign, and so any two items are
    comparable. *)
Theorem untimestamped_item_sorts_last (s : AppState) (i j : nat) (a b : Item)
    (t : Timestamp) :
  myItems s !! i = Some a -> myItems s !! j = Some b ->
  createdAt a = Some t -> 0 < seconds t -> createdAt b = None ->
  has_status "missing" a = has_status "missing" b ->
  createdSeconds b = 0
  /\ (i < j)%nat
  /\ (forall x y, compareItems y x = - compareItems x y)
  /\ (forall x y, compareItems x y <= 0 \/ compareItems y x <= 0).
Proof.
  intros Hi Hj Ha Ht Hb Hg.
  assert (Hb0 : createdSeconds b = 0) by (unfold createdSeconds; by rewrite Hb).
  pose proof (createdSeconds_stamped a t Ha) as Ha0.
  split; [done|]. split; [|split].
  - destruct (Nat.lt_trichotomy i j) as [Hlt|[->|Hgt]]; [done| |].
    + rewrite Hi in Hj. injection Hj as ->. congruence.
    + pose proof (StronglySorted_lookup _ _ _ _ _ _ (myItems_sorted s) Hj Hi Hgt)
        as Hle.
      apply compareItems_le in Hle as [_ Hc].
      specialize (Hc (eq_sym Hg)). lia.
  - intros x y. apply compareItems_flip.
  - apply compareItems_total.
Qed.

Lemma untimestamped_item_sorts_last_witness :
  createdSeconds Scenario.umbrella = 0 /\ (0 < 1)%nat.
Proof.
  pose proof (untimestamped_item_sorts_last Scenario.owner_dashboard 0 1
    Scenario.backpack Scenario.umbrella {| seconds := 1700000000 |}
    eq_refl eq_refl eq_refl eq_refl eq_refl eq_refl) as H.
  exact (conj (proj1 H) (proj1 (proj2 H))).
Defined.

(** ** Scan resolution *)

Lemma append_empty_r (s : string) : s ++ EmptyString = s.
Proof.
  induction s as [|c s IH]; [done|].
  change (String c (s ++ EmptyString) = String c s). by f_equal.
Qed.

Lemma includes_suffix (pre s : string) : Js.includes (pre ++ s) s.
Proof. exists pre, EmptyString. by rewrite append_empty_r. Qed.

(** An identifier that is neither a key of the snapshot nor the name of a
    member of [Object.prototype] is reported as not found, with the
    identifier in the message, and nothing is read or changed. *)
Lemma scan_unknown_id (s : AppState) (read : option string -> ReadResult)
    (itemId : string) :
  db s = true -> Js.truthy (userId s) = true ->
  items s !! itemId = None -> Js.inherited itemId = false ->
  handleScanResult s read itemId = (s, Thrown (msg_not_found itemId), [])
  /\ Js.includes (msg_not_found itemId) itemId.
Proof.
  intros Hdb Hu Hk Hi. split; [|apply includes_suffix].
  unfold handleScanResult, Js.get. by rewrite Hdb, Hu, Hk, Hi.
Qed.

(** The name of a member of [Object.prototype] that is not a key of the
    snapshot is taken for an item without owner: unless the directory has
    an entry under ["undefined"] or the read of an [undefined] uid finds a
    profile, resolution rejects with the owner-profile message. *)
Lemma scan_inherited_name (s : AppState) (read : option string -> ReadResult)
    (itemId : string) :
  db s = true -> Js.truthy (userId s) = true ->
  items s !! itemId = None -> Js.inherited itemId = true ->
  Js.get undefined_profile (users s) "undefined" = None ->
  (forall p, read None <> ReadFound p) ->
  handleScanResult s read itemId
  = (s, Thrown msg_owner_unavailable, [GetDoc None]).
Proof.
  intros Hdb Hu Hk Hi Hc Hr. unfold handleScanResult, Js.get at 1.
  rewrite Hdb, Hu, Hk, Hi. simpl.
  destruct (userId s); simpl; rewrite Hc; unfold fetchProfileByUid; simpl;
    destruct (read None) eqn:Hread; try done; by destruct (Hr p).
Qed.

(** C4. The identifier ["constructor"] is not a key of the snapshot, yet
    [items["constructor"]] is the inherited [Object.prototype.constructor]:
    resolution goes on to the owner lookup with an [undefined] owner and
    fails with the owner-profile error, whose text does not hold the
    identifier, instead of the not-found error. *)
Theorem scan_of_inherited_name :
  items Scenario.finder_scanning !! "constructor" = None
  /\ Js.trim "constructor" = "constructor"
  /\ handleScanResult Scenario.finder_scanning Scenario.profile_store "constructor"
     = (Scenario.finder_scanning, Thrown msg_owner_unavailable, [GetDoc None])
  /\ handleSubmit Scenario.finder_scanning Scenario.profile_store "constructor"
     = (Scenario.finder_scanning, Some msg_owner_unavailable, [GetDoc None])
  /\ msg_owner_unavailable <> msg_not_found "constructor".
Proof. repeat split; vm_compute; congruence. Qed.

Lemma own_item_message_distinct (itemId : string) :
  msg_own_item <> msg_not_found itemId.
Proof. intros H. cbv in H. discriminate H. Qed.

(** C5. Scanning the identifier of an item of the snapshot whose [ownerId]
    is the current principal selects that item, shows the item's QR view
    (['item-qr'], not ['user-profile']), leaves the selected user alone,
    reads nothing from the store, and still rejects with a message of its
    own, different from every not-found message. *)
Theorem self_scan_shows_own_code (s : AppState)
    (read : option string -> ReadResult) (itemId u : string) (item : Item) :
  db s = true -> userId s = Some u -> Js.truthy (Some u) = true ->
  items s !! itemId = Some item -> ownerId item = Some u ->
  let '(s', result, accesses) := handleScanResult s read itemId in
  s' = setView item_qr (setSelectedItem (Some item) s)
  /\ selectedItem s' = Some item
  /\ view s' = item_qr
  /\ view s' <> user_profile
  /\ selectedUser s' = selectedUser s
  /\ result = Thrown msg_own_item
  /\ (forall other, result <> Thrown (msg_not_found other))
  /\ result <> Thrown msg_owner_unavailable
  /\ accesses = [].
Proof.
  intros Hdb Hu Ht Hk Ho. unfold handleScanResult, Js.get.
  rewrite Hdb, Hu, Ht, Hk, Ho. simpl. rewrite String.eqb_refl.
  repeat split; try done.
Qed.

Lemma self_scan_shows_own_code_witness :
  let '(s', result, accesses) :=
    handleScanResult Scenario.owner_scanning Scenario.profile_store "itemX" in
  view s' = item_qr /\ result = Thrown msg_own_item.
Proof.
  pose proof (self_scan_shows_own_code Scenario.owner_scanning
    Scenario.profile_store "itemX" "u1" Scenario.backpack
    eq_refl eq_refl eq_refl eq_refl eq_refl) as H.
  destruct (handleScanResult Scenario.owner_scanning Scenario.profile_store
              "itemX") as [[s' result] accesses].
  exact (conj (proj1 (proj2 (proj2 H)))
              (proj1 (proj2 (proj2 (proj2 (proj2 (proj2 H))))))).
Defined.

(** C6, as the claim states it, fails: with the owner's profile not cached
    and the point read refused by the store, resolution ends in the very
    rejection it gives for a missing profile; the two cannot be told apart. *)
Lemma refused_read_reported_as_missing_profile :
  Js.get undefined_profile (users Scenario.finder_uncached) "u1" = None
  /\ Scenario.refused (Some "u1") = ReadFailed
  /\ handleScanResult Scenario.finder_uncached Scenario.refused "itemX"
     = (Scenario.finder_uncached, Thrown msg_owner_unavailable,
        [GetDoc (Some "u1")])
  /\ handleScanResult Scenario.finder_uncached Scenario.refused "itemX"
     = handleScanResult Scenario.finder_uncached Scenario.no_profile "itemX".
Proof. repeat split; vm_compute; reflexivity. Qed.

Lemma scan_without_profile (s : AppState) (read : option string -> ReadResult)
    (itemId : string) (item : Item) :
  db s = true -> Js.truthy (userId s) = true ->
  items s !! itemId = Some item ->
  Js.strict_eq (ownerId item) (userId s) = false ->
  Js.get undefined_profile (users s) (Js.to_key (ownerId item)) = None ->
  read (ownerId item) = ReadFailed \/ read (ownerId item) = ReadMissing ->
  handleScanResult s read itemId
  = (s, Thrown msg_owner_unavailable, [GetDoc (ownerId item)]).
Proof.
  intros Hdb Hu Hk Ho Hc Hr. unfold handleScanResult, Js.get at 1.
  rewrite Hdb, Hu, Hk, Ho, Hc. simpl.
  unfold fetchProfileByUid. by destruct Hr as [-> | ->].
Qed.

(** C6, amended. When the item is someone else's, the owner's profile is
    not in the cached directory and the point read fails, [fetchProfileByUid]
    catches the error and answers [null]: resolution rejects with the
    owner-profile message ("missing or inaccessible"), exactly as it does
    when the store has no such profile, after that one read, and leaves the
    view and the selection as they were. *)
Theorem refused_read_is_profile_unavailable (s : AppState)
    (read absent : option string -> ReadResult) (itemId : string) (item : Item) :
  db s = true -> Js.truthy (userId s) = true ->
  items s !! itemId = Some item ->
  Js.strict_eq (ownerId item) (userId s) = false ->
  Js.get undefined_profile (users s) (Js.to_key (ownerId item)) = None ->
  read (ownerId item) = ReadFailed ->
  absent (ownerId item) = ReadMissing ->
  handleScanResult s read itemId
  = (s, Thrown msg_owner_unavailable, [GetDoc (ownerId item)])
  /\ handleScanResult s read itemId = handleScanResult s absent itemId.
Proof.
  intros Hdb Hu Hk Ho Hc Hr Ha.
  rewrite (scan_without_profile s read itemId item) by auto.
  by rewrite (scan_without_profile s absent itemId item) by auto.
Qed.

Lemma refused_read_is_profile_unavailable_witness :
  handleScanResult Scenario.finder_uncached Scenario.refused "itemX"
  = (Scenario.finder_uncached, Thrown msg_owner_unavailable,
     [GetDoc (Some "u1")]).
Proof.
  exact (proj1 (refused_read_is_profile_unavailable Scenario.finder_uncached
    Scenario.refused Scenario.no_profile "itemX" Scenario.backpack
    eq_refl eq_refl eq_refl eq_refl eq_refl eq_refl eq_refl)).
Defined.

(** *** Trimming the scanned text *)

Lemma append_cons (c : ascii) (s t : string) :
  String c s ++ t = String c (s ++ t).
Proof. reflexivity. Qed.

Lemma trimStart_all_space (s : string) :
  Js.all_space s = true -> Js.trimStart s = EmptyString.
Proof.
  induction s as [|c s IH]; simpl; [done|].
  intros [Hc Hs]%andb_prop. rewrite Hc. auto.
Qed.

Lemma trimEnd_all_space (s : string) :
  Js.all_space s = true -> Js.trimEnd s = EmptyString.
Proof.
  induction s as [|c s IH]; simpl; [done|].
  intros [Hc Hs]%andb_prop. by rewrite (IH Hs), Hc.
Qed.

Lemma trimEnd_app_space (s post : string) :
  Js.all_space post = true -> Js.trimEnd (s ++ post) = Js.trimEnd s.
Proof.
  intros Hp. induction s as [|c s IH].
  - by apply trimEnd_all_space.
  - rewrite append_cons. simpl. by rewrite IH.
Qed.

Lemma trim_app_space_r (s post : string) :
  Js.all_space post = true -> Js.trim (s ++ post) = Js.trim s.
Proof.
  intros Hp. unfold Js.trim. induction s as [|c s IH].
  - change (EmptyString ++ post) with post.
    by rewrite (trimStart_all_space post Hp).
  - rewrite append_cons. simpl. destruct (Js.is_space c); [done|].
    rewrite <- append_cons. by apply trimEnd_app_space.
Qed.

Lemma trim_app_space_l (pre s : string) :
  Js.all_space pre = true -> Js.trim (pre ++ s) = Js.trim s.
Proof.
  unfold Js.trim. induction pre as [|c pre IH]; [done|].
  intros H. simpl in H. apply andb_prop in H as [Hc Hs].
  rewrite append_cons. simpl. rewrite Hc. auto.
Qed.

Lemma trimEnd_idem (s : string) : Js.trimEnd (Js.trimEnd s) = Js.trimEnd s.
Proof.
  induction s as [|c s IH]; simpl; [done|].
  destruct (Js.trimEnd s) as [|d t] eqn:Ht.
  - destruct (Js.is_space c) eqn:Hc; simpl; [done|]. by rewrite Hc.
  - simpl in *. by rewrite IH.
Qed.

Lemma trimStart_trimEnd (s : string) :
  Js.trimStart s = s -> Js.trimStart (Js.trimEnd s) = Js.trimEnd s.
Proof.
  destruct s as [|c s]; simpl; [done|].
  destruct (Js.is_space c) eqn:Hc.
  - intros H. exfalso. clear Hc.
    assert (Hlen : forall x, (String.length (Js.trimStart x) <= String.length x)%nat).
    { induction x as [|d x IHx]; simpl; [lia|].
      destruct (Js.is_space d); simpl; lia. }
    specialize (Hlen s). rewrite H in Hlen. simpl in Hlen. lia.
  - intros _. destruct (Js.trimEnd s); simpl; by rewrite Hc.
Qed.

Lemma trimStart_idem (s : string) :
  Js.trimStart (Js.trimStart s) = Js.trimStart s.
Proof.
  induction s as [|c s IH]; simpl; [done|].
  destruct (Js.is_space c) eqn:Hc; [done|]. simpl. by rewrite Hc.
Qed.

Lemma trim_idem (s : string) : Js.trim (Js.trim s) = Js.trim s.
Proof.
  unfold Js.trim.
  rewrite (trimStart_trimEnd (Js.trimStart s)) by apply trimStart_idem.
  apply trimEnd_idem.
Qed.

Example trim_example :
  Js.trim (String (ascii_of_nat 9) "  itemX " ++ String (ascii_of_nat 10) EmptyString)
  = "itemX".
Proof. reflexivity. Qed.

Lemma trimEnd_fixed (t : string) (d : ascii) :
  Js.is_space d = false ->
  Js.trimEnd (t ++ String d EmptyString) = t ++ String d EmptyString.
Proof.
  intros Hd. induction t as [|c t IH].
  - change (EmptyString ++ String d EmptyString) with (String d EmptyString).
    simpl. by rewrite Hd.
  - rewrite append_cons. simpl. rewrite IH. by destruct t.
Qed.

(** A text that neither starts nor ends with white space is its own
    trimmed form. *)
Lemma trim_fixed (c d : ascii) (t t' : string) :
  String c t = t' ++ String d EmptyString ->
  Js.is_space c = false -> Js.is_space d = false ->
  Js.trim (String c t) = String c t.
Proof.
  intros H Hc Hd. unfold Js.trim. simpl. rewrite Hc, H.
  by apply trimEnd_fixed.
Qed.

(** C7. [handleSubmit] resolves the trimmed text: text with white space
    around it gives the same state, the same message and the same store
    reads as its trimmed form and as the text without the surrounding white
    space. Text that is empty after trimming (white space only) is turned
    away in the view: [handleScanResult] is not called, nothing is read
    from the store and the state is unchanged. Otherwise the identifier
    resolved is the text between the surrounding white space: for a
    [core] that neither starts nor ends with white space, the input
    [pre ++ core ++ post] trims to [core] and is resolved as
    [handleScanResult] resolves [core]. *)
Theorem scan_input_is_trimmed (s : AppState)
    (read : option string -> ReadResult) (pre core post : string) :
  Js.all_space pre = true -> Js.all_space post = true ->
  let input := pre ++ core ++ post in
  Js.trim input = Js.trim core
  /\ handleSubmit s read input = handleSubmit s read (Js.trim input)
  /\ handleSubmit s read input = handleSubmit s read core
  /\ (Js.trim input = EmptyString -> handleSubmit s read input = (s, None, []))
  /\ (Js.trim input <> EmptyString ->
      handleSubmit s read input
      = match handleScanResult s read (Js.trim input) with
        | (s', Resolved _, acc) => (s', None, acc)
        | (s', Thrown msg, acc) => (s', Some msg, acc)
        | (s', RenderError, acc) => (s', None, acc)
        end)
  /\ (Js.all_space core = true -> handleSubmit s read input = (s, None, []))
  /\ (forall c d t t',
        core = String c t -> core = t' ++ String d EmptyString ->
        Js.is_space c = false -> Js.is_space d = false ->
        Js.trim input = core
        /\ handleSubmit s read input
           = match handleScanResult s read core with
             | (s', Resolved _, acc) => (s', None, acc)
             | (s', Thrown msg, acc) => (s', Some msg, acc)
             | (s', RenderError, acc) => (s', None, acc)
             end).
Proof.
  intros Hpre Hpost input.
  assert (Ht : Js.trim input = Js.trim core).
  { unfold input. by rewrite trim_app_space_l, trim_app_space_r. }
  split; [done|]. unfold handleSubmit. rewrite trim_idem, Ht.
  split; [done|]. split; [done|]. split; [by intros ->|].
  split; [intros Hne; destruct (Js.trim core); [done|reflexivity]|].
  split.
  - intros Hc. unfold Js.trim.
    by rewrite (trimStart_all_space core Hc).
  - intros c d t t' -> Hlast Hc Hd.
    by rewrite (trim_fixed c d t t' Hlast Hc Hd).
Qed.

Lemma scan_input_is_trimmed_witness :
  Js.trim "  itemX  " = "itemX"
  /\ handleSubmit Scenario.finder_scanning Scenario.profile_store "  itemX  "
     = (Scenario.finder_at_owner, None, []).
Proof.
  pose proof (scan_input_is_trimmed Scenario.finder_scanning
    Scenario.profile_store "  " "itemX" "  " eq_refl eq_refl) as H.
  cbv zeta in H. destruct H as (_ & _ & _ & _ & _ & _ & H).
  exact (H "i"%char "X"%char "temX" "item" eq_refl eq_refl eq_refl eq_refl).
Defined.

(** ** The status of an item *)

Lemma has_status_with_status (st : string) (it : Item) :
  has_status st (with_status st it) = true.
Proof. unfold has_status; simpl. apply String.eqb_refl. Qed.

Lemma has_status_eq (st : string) (it : Item) :
  has_status st it = true <-> status it = Some st.
Proof.
  unfold has_status, Js.strict_eq. destruct (status it) as [x|]; [|done].
  rewrite String.eqb_eq. split; congruence.
Qed.

Lemma with_status_same (st : string) (it : Item) :
  status it = Some st -> with_status st it = it.
Proof. destruct it; simpl. by intros ->. Qed.

(** One accepted call leaves a returned item returned. *)
Lemma apply_write_keeps_returned (now : Z) (w : write) (st : Store)
    (docId : string) (it : Item) :
  accepts st w ->
  items_col st !! docId = Some it -> has_status "returned" it = true ->
  exists it', items_col (apply_write now w st) !! docId = Some it'
              /\ has_status "returned" it' = true.
Proof.
  intros Hacc Hit Hret. destruct w as [d nm descr o | d | c ps i | c d sd tx | c];
    simpl in *; eauto.
  - exists it. split; [|done]. rewrite lookup_insert_ne; [done|congruence].
  - destruct (decide (d = docId)) as [->|Hne].
    + rewrite lookup_insert_eq. eexists. split; [done|].
      apply has_status_with_status.
    + rewrite lookup_insert_ne by done. eauto.
Qed.

Lemma store_run_keeps_returned (history : list (Z * write)) (st : Store)
    (docId : string) (it : Item) :
  accepted st history ->
  items_col st !! docId = Some it -> has_status "returned" it = true ->
  exists it', items_col (store_run st history) !! docId = Some it'
              /\ has_status "returned" it' = true.
Proof.
  revert st it. induction history as [|[now w] rest IH]; intros st it; simpl.
  - eauto.
  - intros [Hacc Hrest] Hit Hret.
    destruct (apply_write_keeps_returned now w st docId it Hacc Hit Hret)
      as (it1 & Hit1 & Hret1).
    eauto.
Qed.

Lemma currentItem_after_confirm (s : AppState) (it : Item) (ok : bool) :
  isReturned s = true ->
  isReturned (run_action (ConfirmReturn it) ok s).1 = true.
Proof.
  intros Hret. unfold run_action.
  destruct (item_id it) as [i|]; [|exact Hret].
  destruct (negb (db s) || negb (Js.truthy (Some i))); [exact Hret|].
  destruct ok; [|exact Hret].
  revert Hret. unfold isReturned, currentItem; simpl.
  replace (item_id (default undefined_item (selectedItem s)))
    with (selectedItem s ≫= item_id) by (by destruct (selectedItem s)).
  destruct (Js.get undefined_item (items s)
              (Js.to_key (selectedItem s ≫= item_id))); [done|].
  intros _. apply has_status_with_status.
Qed.

(** C2. Along every history of calls the program makes on the store, an
    item whose status is ['returned'] keeps that status (it never becomes
    ['missing'] again). Marking a returned item returned once more writes
    the value it already has, so the store is unchanged; on the owner view
    the button for it is disabled and the contact button is gone, so the
    click does nothing; and if a confirmation opened earlier is still
    confirmed, the status shown stays RETURNED whether the write succeeds
    or not. *)
Theorem returned_status_is_final (st : Store) (history : list (Z * write))
    (docId : string) (it : Item) (now : Z) (s : AppState) (pending : Item)
    (ok : bool) :
  accepted st history ->
  items_col st !! docId = Some it -> has_status "returned" it = true ->
  isReturned s = true ->
  (exists it', items_col (store_run st history) !! docId = Some it'
               /\ has_status "returned" it' = true
               /\ has_status "missing" it' = false)
  /\ apply_write now (MarkReturned docId) st = st
  /\ canMarkReturned s = false
  /\ canContact s = false
  /\ step s ClickMarkReturned = (s, [])
  /\ isReturned (run_action (ConfirmReturn pending) ok s).1 = true
  /\ visibleStatus (run_action (ConfirmReturn pending) ok s).1 = "RETURNED".
Proof.
  intros Hacc Hit Hret Hvis.
  assert (Hoff : canMarkReturned s = false).
  { unfold canMarkReturned. rewrite Hvis. by rewrite andb_false_r. }
  split; [|split; [|split; [|split; [|split; [|split]]]]].
  - destruct (store_run_keeps_returned history st docId it Hacc Hit Hret)
      as (it' & H1 & H2).
    exists it'. auto using returned_not_missing.
  - destruct st as [ic cc mc]; simpl in *. f_equal.
    rewrite Hit; simpl. rewrite with_status_same by by apply has_status_eq.
    by apply insert_id.
  - exact Hoff.
  - exact Hoff.
  - simpl. by rewrite Hoff.
  - by apply currentItem_after_confirm.
  - unfold visibleStatus. by rewrite currentItem_after_confirm.
Qed.

Lemma returned_status_is_final_witness :
  apply_write 7 (MarkReturned "itemX") Scenario.store_after_return
  = Scenario.store_after_return
  /\ step Scenario.finder_after_return ClickMarkReturned
     = (Scenario.finder_after_return, []).
Proof.
  pose proof (returned_status_is_final Scenario.store_after_return
    [(5, AddItem "itemN" "Hat" "grey" (Some "u2")); (6, MarkReturned "itemX");
     (6, MarkReturned "itemY")]
    "itemX" (with_status "returned" Scenario.backpack) 7
    Scenario.finder_after_return Scenario.backpack true
    (conj eq_refl (conj I (conj I I))) eq_refl eq_refl eq_refl) as H.
  exact (conj (proj1 (proj2 H)) (proj1 (proj2 (proj2 (proj2 (proj2 H)))))).
Defined.

(** ** The return confirmation *)

Lemma handleAddItem_modal (s : AppState) (nm descr newId : string) (ok : bool) :
  let s' := (handleAddItem s nm descr newId ok).1 in
  modal s' = modal s \/ (onConfirm (modal s') = Some Dismiss /\ onCancel (modal s') = None).
Proof.
  unfold handleAddItem.
  destruct (negb (Js.truthy (userId s)) || negb (db s)); [by left|].
  destruct ok; simpl; auto.
Qed.

Lemma handleStartChat_modal (s : AppState) (ok : bool) :
  let s' := (handleStartChat s ok).1 in
  modal s' = modal s \/ (onConfirm (modal s') = Some Dismiss /\ onCancel (modal s') = None).
Proof.
  unfold handleStartChat.
  destruct (selectedItem s); [|by left]. destruct (selectedUser s); [|by left].
  destruct (negb (Js.truthy (userId s))); [by left|].
  destruct (negb (db s) || negb _); [by right|].
  destruct ok; simpl; auto.
Qed.

Lemma handleSendMessage_modal (s : AppState) (txt newId : string) (ok1 ok2 : bool) :
  let s' := (handleSendMessage s txt newId ok1 ok2).1 in
  modal s' = modal s \/ (onConfirm (modal s') = Some Dismiss /\ onCancel (modal s') = None).
Proof.
  unfold handleSendMessage.
  destruct (selectedChat s) as [c|]; [|by left].
  destruct (negb (Js.truthy (userId s)) || negb (db s)); [by left|].
  destruct (chat_id c); [|by right].
  destruct (negb (Js.truthy _)); [by right|].
  destruct ok1; [|by right]. destruct ok2; simpl; auto.
Qed.

(** The three states a scan can end in. *)
Lemma handleScanResult_state (s : AppState) read (itemId : string) :
  (handleScanResult s read itemId).1.1 = s
  \/ (exists item,
        (handleScanResult s read itemId).1.1
        = setView item_qr (setSelectedItem (Some item) s))
  \/ (exists it' p',
        (handleScanResult s read itemId).1.1
        = setView user_profile (setSelectedUser p' (setSelectedItem it' s))).
Proof.
  unfold handleScanResult.
  destruct (negb (db s) || negb (Js.truthy (userId s))); [by left|].
  destruct (Js.get undefined_item (items s) itemId) as [item|]; [|by left].
  destruct (Js.strict_eq (ownerId item) (userId s)); [right; left; eauto|].
  destruct (Js.get undefined_profile (users s) _) as [p|].
  - simpl. destruct (set_from undefined_item _ _ _ _) as [it'|]; [|by left].
    destruct (set_from undefined_profile _ _ _ _) as [p'|]; [|by left].
    right; right; eauto.
  - destruct (fetchProfileByUid _ _ _) as [[p|] acc]; simpl; [|by left].
    destruct (set_from undefined_item _ _ _ _) as [it'|]; [|by left].
    right; right; eauto.
Qed.

Lemma handleScanResult_modal (s : AppState) read (itemId : string) :
  modal (handleScanResult s read itemId).1.1 = modal s.
Proof.
  destruct (handleScanResult_state s read itemId)
    as [->|[(item & ->)|(it' & p' & ->)]]; done.
Qed.

Lemma handleSubmit_modal (s : AppState) read (input : string) :
  modal (handleSubmit s read input).1.1 = modal s.
Proof.
  unfold handleSubmit. destruct (Js.truthy _); [|done].
  pose proof (handleScanResult_modal s read (Js.trim input)) as H.
  by destruct (handleScanResult s read (Js.trim input)) as [[s' [it|msg|]] acc].
Qed.

Lemma handleSubmit_state (s : AppState) read (input : string) :
  (handleSubmit s read input).1.1 = s
  \/ (handleSubmit s read input).1.1
     = (handleScanResult s read (Js.trim input)).1.1.
Proof.
  unfold handleSubmit. destruct (Js.truthy _); [|by left]. right.
  by destruct (handleScanResult s read (Js.trim input)) as [[s' [it|msg|]] acc].
Qed.

Lemma run_action_modal (a : ModalAction) (ok : bool) (s : AppState) :
  let s' := (run_action a ok s).1 in
  modal s' = modal s
  \/ modal s' = closed_modal
  \/ (onConfirm (modal s') = Some Dismiss /\ onCancel (modal s') = None).
Proof.
  destruct a as [| |it]; simpl; auto.
  destruct (item_id it); [|auto].
  destruct (negb (db s) || negb _); [auto|]. destruct ok; simpl; auto.
Qed.

Lemma handleMarkReturned_modal (s : AppState) :
  modal (handleMarkReturned s) = modal s
  \/ exists it, selectedItem s = Some it /\ db s = true
       /\ isOpen (modal (handleMarkReturned s)) = true
       /\ onConfirm (modal (handleMarkReturned s)) = Some (ConfirmReturn it)
       /\ onCancel (modal (handleMarkReturned s)) = Some Dismiss.
Proof.
  unfold handleMarkReturned. destruct (selectedItem s) as [it|]; [|by left].
  destruct (db s); simpl; [|by left]. right. by exists it.
Qed.

(** Going through a short explicit list of calls looking for a member. *)
Ltac member_cases H :=
  repeat (first
    [ apply elem_of_nil in H; destruct H
    | apply elem_of_cons in H; destruct H as [H|H]; [try discriminate H|] ]).

Lemma handleAddItem_writes (s : AppState) (nm descr newId : string) (ok : bool)
    (docId : string) :
  MarkReturned docId ∉ (handleAddItem s nm descr newId ok).2.
Proof.
  unfold handleAddItem. intros H.
  destruct (negb (Js.truthy (userId s)) || negb (db s)); simpl in H;
    [member_cases H|].
  destruct ok; simpl in H; member_cases H.
Qed.

Lemma handleStartChat_writes (s : AppState) (ok : bool) (docId : string) :
  MarkReturned docId ∉ (handleStartChat s ok).2.
Proof.
  unfold handleStartChat. intros H.
  destruct (selectedItem s); [|simpl in H; member_cases H].
  destruct (selectedUser s); [|simpl in H; member_cases H].
  destruct (negb (Js.truthy (userId s))); [simpl in H; member_cases H|].
  destruct (negb (db s) || negb _); [simpl in H; member_cases H|].
  destruct ok; simpl in H; member_cases H.
Qed.

Lemma handleSendMessage_writes (s : AppState) (txt newId : string)
    (ok1 ok2 : bool) (docId : string) :
  MarkReturned docId ∉ (handleSendMessage s txt newId ok1 ok2).2.
Proof.
  unfold handleSendMessage. intros H.
  destruct (selectedChat s) as [c|]; [|simpl in H; member_cases H].
  destruct (negb (Js.truthy (userId s)) || negb (db s));
    [simpl in H; member_cases H|].
  destruct (chat_id c); [|simpl in H; member_cases H].
  destruct (negb (Js.truthy _)); [simpl in H; member_cases H|].
  destruct ok1; [|simpl in H; member_cases H].
  destruct ok2; simpl in H; member_cases H.
Qed.

Lemma run_action_writes (a : ModalAction) (ok : bool) (s : AppState)
    (docId : string) :
  MarkReturned docId ∈ (run_action a ok s).2 ->
  exists it, a = ConfirmReturn it /\ item_id it = Some docId.
Proof.
  destruct a as [| |it]; simpl; intros H; [member_cases H | member_cases H |].
  exists it. split; [done|].
  destruct (item_id it) as [i|]; [|simpl in H; member_cases H].
  destruct (negb (db s) || negb _); [simpl in H; member_cases H|].
  destruct ok; simpl in H; member_cases H; congruence.
Qed.

Lemma step_return_write (s : AppState) (e : event) (docId : string) :
  cancel_only_dismisses (modal s) ->
  MarkReturned docId ∈ (step s e).2 ->
  exists ok it, e = ModalConfirm ok /\ isOpen (modal s) = true
    /\ onConfirm (modal s) = Some (ConfirmReturn it)
    /\ item_id it = Some docId.
Proof.
  intros Hinv H. destruct e; simpl in H.
  - destruct (nav_button s v); simpl in H; member_cases H.
  - destruct (_ && _); [by apply handleAddItem_writes in H|].
    simpl in H; member_cases H.
  - destruct (is_view _ _); simpl in H; member_cases H.
  - destruct (canContact s); [by apply handleStartChat_writes in H|].
    simpl in H; member_cases H.
  - destruct (canMarkReturned s); simpl in H; member_cases H.
  - unfold clickModalConfirm in H.
    destruct (isOpen (modal s)) eqn:Ho; [|simpl in H; member_cases H].
    destruct (onConfirm (modal s)) as [a|] eqn:Ha; [|simpl in H; member_cases H].
    apply run_action_writes in H as (it & -> & Hid). by exists ok, it.
  - unfold clickModalCancel in H.
    destruct (isOpen (modal s)); [|simpl in H; member_cases H].
    destruct Hinv as [Hc|Hc]; rewrite Hc in H; simpl in H; member_cases H.
  - destruct (view s); try (simpl in H; member_cases H).
    destruct (selectedChat s); [|simpl in H; member_cases H].
    destruct (selectedUser s); [|simpl in H; member_cases H].
    destruct (Js.trim _); [simpl in H; member_cases H|].
    by apply handleSendMessage_writes in H.
  - destruct (is_view _ _); simpl in H; member_cases H.
  - member_cases H.
  - member_cases H.
  - member_cases H.
  - member_cases H.
Qed.

(** The modal after an event: as before, closed, a notice with a single
    OK button, or the confirmation just opened by [handleMarkReturned]. *)
Lemma step_modal (s : AppState) (e : event) :
  let s' := (step s e).1 in
  modal s' = modal s
  \/ modal s' = closed_modal
  \/ (onConfirm (modal s') = Some Dismiss /\ onCancel (modal s') = None)
  \/ (e = ClickMarkReturned
      /\ exists it, selectedItem s = Some it
           /\ isOpen (modal s') = true
           /\ onConfirm (modal s') = Some (ConfirmReturn it)
           /\ onCancel (modal s') = Some Dismiss).
Proof.
  destruct e; simpl.
  - destruct (nav_button s v); auto.
  - destruct (_ && _); [|auto].
    destruct (handleAddItem_modal s (Js.trim itemName0) (Js.trim description0)
                newId ok) as [H|H]; auto.
  - destruct (is_view _ _); [|auto]. simpl. rewrite handleSubmit_modal. auto.
  - destruct (canContact s); [|auto].
    destruct (handleStartChat_modal s ok) as [H|H]; auto.
  - destruct (canMarkReturned s); [|auto]. simpl.
    destruct (handleMarkReturned_modal s) as [H|(it & H1 & _ & H2 & H3 & H4)];
      [auto|].
    do 3 right. split; [done|]. by exists it.
  - unfold clickModalConfirm. destruct (isOpen (modal s)); [|auto].
    destruct (onConfirm (modal s)) as [a|]; [|auto].
    destruct (run_action_modal a ok s) as [H|[H|H]]; auto.
  - unfold clickModalCancel. destruct (isOpen (modal s)); [|auto].
    destruct (onCancel (modal s)) as [a|]; [|auto].
    destruct (run_action_modal a true s) as [H|[H|H]]; auto.
  - destruct (view s); auto.
    destruct (selectedChat s); [|auto]. destruct (selectedUser s); [|auto].
    destruct (Js.trim _) eqn:Ht; [auto|].
    destruct (handleSendMessage_modal s (String a s0) newId ok1 ok2) as [H|H];
      auto.
  - destruct (is_view _ _); [|auto]. simpl. unfold handleLogout.
    destruct (auth s); [|auto]. destruct ok; auto.
  - auto.
  - auto.
  - auto.
  - auto.
Qed.

(** C9. In a state whose modal, if it has a Cancel button, only closes on
    Cancel (every modal the component opens is such, and events keep it
    so): an event issues the status write only if it is the Confirm click
    on an open modal whose confirm closure is the one of
    [handleMarkReturned], for that item; such a closure gets into the modal
    only by [handleMarkReturned], which opens it with a Cancel button and
    writes nothing itself; and pressing Cancel on the confirmation issues
    no call and gives back the state the request started from, with the
    modal closed. *)
Theorem return_write_needs_confirmation (s : AppState) (e : event) :
  cancel_only_dismisses (modal s) ->
  cancel_only_dismisses (modal (step s e).1)
  /\ (forall docId, MarkReturned docId ∈ (step s e).2 ->
        exists ok it, e = ModalConfirm ok /\ isOpen (modal s) = true
          /\ onConfirm (modal s) = Some (ConfirmReturn it)
          /\ item_id it = Some docId)
  /\ (forall it, onConfirm (modal (step s e).1) = Some (ConfirmReturn it) ->
        onConfirm (modal s) = Some (ConfirmReturn it)
        \/ (e = ClickMarkReturned /\ selectedItem s = Some it
            /\ isOpen (modal (step s e).1) = true
            /\ onCancel (modal (step s e).1) = Some Dismiss))
  /\ (step s ClickMarkReturned).2 = []
  /\ (forall it, canMarkReturned s = true -> selectedItem s = Some it ->
        db s = true ->
        onConfirm (modal (step s ClickMarkReturned).1) = Some (ConfirmReturn it)
        /\ step (step s ClickMarkReturned).1 ModalCancel
           = (setModal closed_modal s, [])).
Proof.
  intros Hinv. split; [|split; [|split; [|split]]].
  - destruct (step_modal s e) as [H|[H|[[_ H]|(_ & it & _ & _ & _ & H)]]];
      unfold cancel_only_dismisses; rewrite ?H; auto.
  - intros docId. by apply step_return_write.
  - intros it Hit.
    destruct (step_modal s e) as [H|[H|[[H _]|(He & it' & H1 & H2 & H3 & H4)]]].
    + left. by rewrite <- H.
    + rewrite H in Hit. discriminate Hit.
    + rewrite H in Hit. discriminate Hit.
    + right. rewrite H3 in Hit. injection Hit as <-. auto.
  - simpl. by destruct (canMarkReturned s).
  - intros it Hcan Hsel Hdb. simpl. rewrite Hcan. simpl.
    unfold handleMarkReturned. rewrite Hsel, Hdb. simpl. split; [done|].
    unfold clickModalCancel. simpl. reflexivity.
Qed.

Lemma return_write_needs_confirmation_witness :
  (step Scenario.finder_at_owner ClickMarkReturned).2 = []
  /\ step (step Scenario.finder_at_owner ClickMarkReturned).1 ModalCancel
     = (setModal closed_modal Scenario.finder_at_owner, []).
Proof.
  pose proof (return_write_needs_confirmation Scenario.finder_at_owner
    (ModalConfirm true) (or_introl eq_refl)) as (_ & _ & _ & H4 & H5).
  exact (conj H4 (proj2 (H5 Scenario.backpack eq_refl eq_refl eq_refl))).
Defined.

Example confirm_issues_the_write :
  (step (step Scenario.finder_at_owner ClickMarkReturned).1 (ModalConfirm true)).2
  = [MarkReturned "itemX"].
Proof. vm_compute. reflexivity. Qed.

(** ** The message listener *)

(** C8, as the claim states it, fails: [u2] opens the chat with the owner,
    which attaches the listener for chat ["u1_u2"], and goes back to the
    owner view. The chat view is left, nothing is unsubscribed, the
    listener stays attached, and its next callback still updates
    [selectedChat]. *)
Lemma message_listener_survives_leaving_chat :
  view (app Scenario.session_chatting) = chat
  /\ live (listener Scenario.session_chatting) = Some "u1_u2"
  /\ (let '(σ', _, subs) :=
        session_step Scenario.session_chatting (Navigate user_profile) in
      view (app σ') = user_profile
      /\ subs = []
      /\ live (listener σ') = Some "u1_u2"
      /\ selectedChat
           (app (session_step σ' (MessagesSnapshot [Scenario.hello])).1.1)
           ≫= messages
         = Some [Scenario.hello]).
Proof. vm_compute. repeat split; reflexivity. Qed.

Lemma messagesEffect_spec (s : AppState) (l : Listener) :
  let dep := selectedChat s ≫= chat_id in
  let '(l', subs) := messagesEffect s l in
  lastDeps l' = Some dep
  /\ (lastDeps l = Some dep -> l' = l /\ subs = [])
  /\ (lastDeps l <> Some dep ->
      (live l' = None \/ live l' = dep)
      /\ match live l with
         | Some c =>
             subs = [Unsubscribe c]
             \/ exists c', dep = Some c' /\ live l' = Some c'
                  /\ subs = [Unsubscribe c; Subscribe c']
         | None => True
         end).
Proof.
  unfold messagesEffect. cbv zeta. case_bool_decide as Hd.
  - split; [done|]. split; [done|]. by intros [].
  - destruct (selectedChat s) as [ch|]; simpl in *;
      [destruct (chat_id ch) as [i|]; simpl in *; [destruct (db s)|]|];
      (split; [reflexivity|]); (split; [by intros ?|]); intros _;
      (split; [auto|]); destruct (live l); simpl; eauto.
Qed.

(** C8, amended. While a message listener is attached for chat [c], an
    event after which the selected chat's id is no longer [c] (another chat
    is selected, or the selection is cleared as at sign-out) makes the next
    render call its teardown, once and before any new listener is attached;
    an event that keeps the selected chat's id leaves the listener
    attached and tears nothing down, and that is so for every navigation
    between views, leaving the chat view included. *)
Theorem message_listener_follows_selected_chat (σ : Session) (e : event)
    (c : string) :
  session_ok σ -> live (listener σ) = Some c ->
  let '(σ', _, subs) := session_step σ e in
  let dep' := selectedChat (app σ') ≫= chat_id in
  session_ok σ'
  /\ (dep' <> Some c ->
      live (listener σ') <> Some c
      /\ (subs = [Unsubscribe c]
          \/ exists c', dep' = Some c' /\ live (listener σ') = Some c'
               /\ subs = [Unsubscribe c; Subscribe c']))
  /\ (dep' = Some c -> subs = [] /\ listener σ' = listener σ)
  /\ (forall v, e = Navigate v ->
        selectedChat (app σ') = selectedChat (app σ)
        /\ subs = [] /\ listener σ' = listener σ).
Proof.
  intros [Hsync Hok] Hlive. rewrite Hlive in Hok.
  unfold session_step.
  destruct (match e, live (listener σ) with
            | MessagesSnapshot _, None => (app σ, [])
            | _, _ => step (app σ) e
            end) as [s' ws] eqn:Hstep.
  assert (Hnav : forall v, e = Navigate v ->
                   selectedChat s' = selectedChat (app σ)).
  { intros v ->. simpl in Hstep.
    by destruct (nav_button (app σ) v); injection Hstep as <- _. }
  pose proof (messagesEffect_spec s' (listener σ)) as Heff.
  destruct (messagesEffect s' (listener σ)) as [l' subs].
  cbv zeta in *. simpl.
  set (dep' := selectedChat s' ≫= chat_id) in *.
  destruct Heff as (Hlast & Hsame & Hdiff). rewrite Hok, Hlive in *.
  assert (Hkeep : dep' = Some c -> subs = [] /\ l' = listener σ).
  { intros Hdep. destruct Hsame as [-> ->]; [by rewrite Hdep|done]. }
  split; [|split; [|split]].
  - split; simpl; [done|].
    destruct (decide (dep' = Some c)) as [Hdep|Hdep].
    + destruct (Hkeep Hdep) as [_ ->]. by rewrite Hlive.
    + destruct Hdiff as [[Hl|Hl] _]; [congruence|by rewrite Hl|].
      rewrite Hl. destruct dep'; [by rewrite Hlast|done].
  - intros Hdep. destruct Hdiff as [Hl Hsubs]; [congruence|].
    split; [|done]. destruct Hl as [Hl|Hl]; rewrite Hl; congruence.
  - exact Hkeep.
  - intros v He. split; [by apply (Hnav v)|]. apply Hkeep.
    unfold dep'. rewrite (Hnav v He). by injection Hsync as <-.
Qed.

Example session_chatting_ok : session_ok Scenario.session_chatting.
Proof. vm_compute. by split. Qed.

Lemma message_listener_follows_selected_chat_witness :
  (let '(σ', _, subs) :=
     session_step Scenario.session_chatting (Navigate user_profile) in
   subs = [] /\ listener σ' = listener Scenario.session_chatting).
Proof.
  pose proof (message_listener_follows_selected_chat Scenario.session_chatting
    (Navigate user_profile) "u1_u2" session_chatting_ok eq_refl) as H.
  destruct (session_step Scenario.session_chatting (Navigate user_profile))
    as [[σ' ws] subs].
  destruct H as (_ & _ & _ & H). destruct (H user_profile eq_refl) as (_ & H1 & H2).
  exact (conj H1 H2).
Defined.

(** * Further properties of the handlers *)

(** ** Scan resolution: the paths that succeed or are not started *)

(** X1. Scanning the identifier of somebody else's item whose owner has
    an entry of their own in the cached directory (a key of [users]) shows
    the owner view for exactly that item and that cached profile without
    any store read; when the directory answers nothing under the owner's
    id, one point read is made and a profile it finds is shown the same
    way. Nothing else of the state changes. *)
Theorem scan_resolves_owner (s : AppState) (read : option string -> ReadResult)
    (itemId : string) (item : Item) :
  db s = true -> Js.truthy (userId s) = true ->
  items s !! itemId = Some item ->
  Js.strict_eq (ownerId item) (userId s) = false ->
  let shown p :=
    setView user_profile
      (setSelectedUser (Some p) (setSelectedItem (Some item) s)) in
  (forall p,
     users s !! Js.to_key (ownerId item) = Some p ->
     handleScanResult s read itemId = (shown p, Resolved item, []))
  /\ (forall p,
        Js.get undefined_profile (users s) (Js.to_key (ownerId item)) = None ->
        read (ownerId item) = ReadFound p ->
        handleScanResult s read itemId
        = (shown p, Resolved item, [GetDoc (ownerId item)]))
  /\ (forall p, items (shown p) = items s /\ users (shown p) = users s
                /\ chats (shown p) = chats s /\ modal (shown p) = modal s
                /\ selectedChat (shown p) = selectedChat s
                /\ view (shown p) = user_profile
                /\ selectedItem (shown p) = Some item
                /\ selectedUser (shown p) = Some p
                /\ (item_id item = Some itemId ->
                    currentItem (shown p) = Some item
                    /\ profileShown (shown p) = true)).
Proof.
  intros Hdb Hu Hk Ho shown.
  assert (Hget : Js.get undefined_item (items s) itemId = Some item)
    by (unfold Js.get; by rewrite Hk).
  split; [|split].
  - intros p Hc. unfold handleScanResult, set_from.
    rewrite Hdb, Hu, Hget, Ho. unfold Js.get. by rewrite Hc, Hk.
  - intros p Hc Hr. unfold handleScanResult, fetchProfileByUid, set_from.
    by rewrite Hdb, Hu, Hget, Ho, Hc, Hr, Hk.
  - intros p. do 8 (split; [done|]). intros Hid.
    unfold profileShown, currentItem, shown; simpl.
    by rewrite Hid; simpl; rewrite Hget.
Qed.

Lemma scan_resolves_owner_witness :
  handleScanResult Scenario.finder_scanning Scenario.refused "itemX"
  = (Scenario.finder_at_owner, Resolved Scenario.backpack, []).
Proof.
  exact (proj1 (scan_resolves_owner Scenario.finder_scanning Scenario.refused
    "itemX" Scenario.backpack eq_refl eq_refl eq_refl eq_refl)
    Scenario.profile1 eq_refl).
Defined.

(** An owner id that is the name of a member of [Object.prototype] and not
    a key of the directory: the member is handed to [setSelectedUser].
    [isPrototypeOf], run as an updater on no selection, answers [false],
    and the view shows its error text instead of an owner; [valueOf]
    throws when run. *)
Example scan_of_item_owned_by_member_name :
  (let '(s', result, accesses) :=
     handleScanResult Cases.finder_with_odd_owners Scenario.refused "odd1" in
   view s' = user_profile /\ selectedUser s' = None
   /\ profileShown s' = false /\ result = Resolved (Cases.odd "isPrototypeOf")
   /\ accesses = [])
  /\ handleScanResult Cases.finder_with_odd_owners Scenario.refused "odd2"
     = (Cases.finder_with_odd_owners, RenderError, []).
Proof. vm_compute. repeat split. Qed.

(** ** Without a Firestore handle *)

Lemma step_db (s : AppState) (e : event) : db (step s e).1 = db s.
Proof.
  destruct e; simpl.
  - by destruct (nav_button s v).
  - destruct (_ && _); [|done]. unfold handleAddItem.
    destruct (_ || _); [done|]. by destruct ok.
  - destruct (is_view _ _); [|done]. simpl.
    destruct (handleSubmit_state s read input) as [->| ->]; [done|].
    destruct (handleScanResult_state s read (Js.trim input))
      as [->|[(item & ->)|(it' & p' & ->)]]; done.
  - destruct (canContact s); [|done]. unfold handleStartChat.
    destruct (selectedItem s); [|done]. destruct (selectedUser s); [|done].
    destruct (negb (Js.truthy _)); [done|].
    destruct (_ || _); [done|]. by destruct ok.
  - destruct (canMarkReturned s); [|done]. simpl. unfold handleMarkReturned.
    destruct (selectedItem s); [|done]. by destruct (negb (db s)).
  - unfold clickModalConfirm. destruct (isOpen _); [|done].
    destruct (onConfirm _) as [[| |it]|]; try done. simpl.
    destruct (item_id it); [|done]. destruct (_ || _); [done|]. by destruct ok.
  - unfold clickModalCancel. destruct (isOpen _); [|done].
    destruct (onCancel _) as [[| |it]|]; try done. simpl.
    destruct (item_id it); [|done]. by destruct (_ || _).
  - destruct (view s); try done.
    destruct (selectedChat s) as [c|] eqn:Hc; [|done].
    destruct (selectedUser s); [|done].
    destruct (Js.trim _); [done|]. unfold handleSendMessage. rewrite Hc.
    destruct (_ || _); [done|]. destruct (chat_id c); [|done].
    destruct (negb _); [done|]. destruct ok1; [|done]. by destruct ok2.
  - destruct (is_view _ _); [|done]. simpl. unfold handleLogout.
    destruct (auth s); [|done]. by destruct ok.
  - done.
  - done.
  - done.
  - done.
Qed.

(** X2. When the Firestore handle is missing (no valid configuration, or
    initialisation failed) it stays missing, no event issues any store
    write, and a scan stops with "App not initialized." before any look-up
    or store read, leaving the state alone. *)
Theorem no_handle_no_store_calls (s : AppState) (e : event)
    (read : option string -> ReadResult) (itemId : string) :
  db s = false ->
  db (step s e).1 = false
  /\ (step s e).2 = []
  /\ handleScanResult s read itemId = (s, Thrown msg_not_initialized, [])
  /\ (handleSubmit s read itemId).2 = [].
Proof.
  intros Hdb. split; [by rewrite step_db|]. split; [|split].
  - destruct e; simpl.
    + by destruct (nav_button s v).
    + destruct (_ && _); [|done]. unfold handleAddItem. rewrite Hdb.
      by rewrite orb_true_r.
    + by destruct (is_view _ _).
    + destruct (canContact s); [|done]. unfold handleStartChat. rewrite Hdb.
      destruct (selectedItem s); [|done]. destruct (selectedUser s); [|done].
      by destruct (negb (Js.truthy _)).
    + by destruct (canMarkReturned s).
    + unfold clickModalConfirm. destruct (isOpen _); [|done].
      destruct (onConfirm _) as [[| |it]|]; try done. simpl. rewrite Hdb.
      by destruct (item_id it).
    + unfold clickModalCancel. destruct (isOpen _); [|done].
      destruct (onCancel _) as [[| |it]|]; try done. simpl. rewrite Hdb.
      by destruct (item_id it).
    + destruct (view s); try done.
      destruct (selectedChat s) as [c|] eqn:Hc; [|done].
      destruct (selectedUser s); [|done].
      destruct (Js.trim _); [done|]. unfold handleSendMessage.
      rewrite Hc, Hdb. by rewrite orb_true_r.
    + by destruct (is_view _ _).
    + done.
    + done.
    + done.
    + done.
  - unfold handleScanResult. by rewrite Hdb.
  - unfold handleSubmit. destruct (Js.truthy _); [|done].
    unfold handleScanResult. by rewrite Hdb.
Qed.

Lemma no_handle_no_store_calls_witness :
  (step Cases.unconfigured (SubmitItem "Hat" "grey" "id1" true)).2 = []
  /\ handleScanResult Cases.unconfigured Scenario.profile_store "itemX"
     = (Cases.unconfigured, Thrown msg_not_initialized, []).
Proof.
  pose proof (no_handle_no_store_calls Cases.unconfigured
    (SubmitItem "Hat" "grey" "id1" true) Scenario.profile_store "itemX"
    eq_refl) as (_ & H2 & H3 & _).
  exact (conj H2 H3).
Defined.


(** ** Registering an item *)

Lemma elem_of_myItems (s : AppState) (it : Item) :
  it ∈ myItems s <->
  (exists k, items s !! k = Some it)
  /\ Js.strict_eq (ownerId it) (userId s) = true.
Proof.
  unfold myItems. rewrite (sort_by_perm compareItems).
  rewrite list_elem_of_In, filter_In, <- list_elem_of_In.
  by rewrite elem_of_values.
Qed.

Lemma items_after_snapshot (s : AppState) (docs : gmap string Item) (k : string) :
  items (step s (ItemsSnapshot docs)).1 !! k = with_id k <$> docs !! k.
Proof. simpl. rewrite map_lookup_imap. by destruct (docs !! k). Qed.

(** X3. Registering an item succeeds with one [addDoc]; the view shows the
    QR code of a local copy that has no creation time yet. Once the store
    has taken the call and the items listener has delivered its
    collection, the item shown and the item in the owner's list is the
    stored document: same name and description, the registering principal
    as owner, status ['missing'], the server's creation time and the
    generated id. The other documents of the store are untouched. *)
Theorem registered_item_reaches_dashboard (s : AppState)
    (nm descr newId u : string) (st : Store) (now : Z) :
  db s = true -> userId s = Some u -> Js.truthy (Some u) = true ->
  items_col st !! newId = None ->
  let '(s1, ws) := handleAddItem s nm descr newId true in
  let st' := apply_writes now ws st in
  let s2 := (step s1 (ItemsSnapshot (items_col st'))).1 in
  let stored :=
    {| item_id := Some newId; itemName := Some nm; description := Some descr;
       ownerId := Some u; status := Some "missing";
       createdAt := Some {| seconds := now |} |} in
  ws = [AddItem newId nm descr (Some u)]
  /\ view s1 = item_qr
  /\ selectedItem s1
     = Some {| item_id := Some newId; itemName := Some nm;
               description := Some descr; ownerId := Some u;
               status := Some "missing"; createdAt := None |}
  /\ items s2 !! newId = Some stored
  /\ currentItem s2 = Some stored
  /\ stored ∈ myItems s2
  /\ (forall k, k <> newId -> items_col st' !! k = items_col st !! k)
  /\ chats_col st' = chats_col st /\ messages_col st' = messages_col st.
Proof.
  intros Hdb Hu Ht Hfresh. unfold handleAddItem. rewrite Hdb, Hu, Ht. simpl.
  assert (Hitems :
    map_imap (fun k d => Some (with_id k d))
      (<[newId := {| item_id := None; itemName := Some nm;
                     description := Some descr; ownerId := Some u;
                     status := Some "missing";
                     createdAt := Some {| seconds := now |} |}]>
         (items_col st)) !! newId
    = Some {| item_id := Some newId; itemName := Some nm;
              description := Some descr; ownerId := Some u;
              status := Some "missing";
              createdAt := Some {| seconds := now |} |}).
  { rewrite map_lookup_imap, lookup_insert_eq. reflexivity. }
  repeat split; try done.
  - unfold currentItem, Js.get; simpl. by rewrite Hitems.
  - apply elem_of_myItems. split; [by exists newId|].
    simpl. rewrite Hu. simpl. apply String.eqb_refl.
  - intros k Hk. by rewrite lookup_insert_ne.
Qed.

Lemma registered_item_reaches_dashboard_witness :
  (handleAddItem Cases.finder_adding "Hat" "grey" "itemN" true).2
  = [AddItem "itemN" "Hat" "grey" (Some "u2")].
Proof.
  pose proof (registered_item_reaches_dashboard Cases.finder_adding
    "Hat" "grey" "itemN" "u2" Cases.store0 1700000300
    eq_refl eq_refl eq_refl eq_refl) as H.
  destruct (handleAddItem Cases.finder_adding "Hat" "grey" "itemN" true)
    as [s1 ws].
  exact (proj1 H).
Defined.

(** ** Where each store call comes from *)

Lemma handleAddItem_origin (s : AppState) (nm descr newId : string) (ok : bool)
    (w : write) :
  w ∈ (handleAddItem s nm descr newId ok).2 ->
  w = AddItem newId nm descr (userId s)
  /\ Js.truthy (userId s) = true /\ db s = true.
Proof.
  unfold handleAddItem. intros H.
  destruct (Js.truthy (userId s)); [|simpl in H; member_cases H].
  destruct (db s); [|simpl in H; member_cases H].
  destruct ok; simpl in H; member_cases H; by subst.
Qed.

Lemma handleStartChat_origin (s : AppState) (ok : bool) (w : write) :
  w ∈ (handleStartChat s ok).2 ->
  exists it, selectedItem s = Some it
    /\ w = UpsertChat (getChatDocId (userId s) (ownerId it))
             (Js.sort_default [userId s; ownerId it]) (item_id it)
    /\ Js.truthy (userId s) = true /\ db s = true.
Proof.
  unfold handleStartChat. intros H.
  destruct (selectedItem s) as [it|]; [|simpl in H; member_cases H].
  destruct (selectedUser s); [|simpl in H; member_cases H].
  destruct (Js.truthy (userId s)); [|simpl in H; member_cases H].
  destruct (db s); [|simpl in H; member_cases H].
  simpl negb in H. cbv iota in H.
  destruct (false || negb _); [simpl in H; member_cases H|].
  exists it. destruct ok; simpl in H; member_cases H; by subst.
Qed.

Lemma handleSendMessage_origin (s : AppState) (txt newId : string)
    (ok1 ok2 : bool) (w : write) :
  w ∈ (handleSendMessage s txt newId ok1 ok2).2 ->
  exists c cid, selectedChat s = Some c /\ chat_id c = Some cid
    /\ Js.truthy (userId s) = true /\ db s = true
    /\ (w = AddMessage cid newId (userId s) txt
        \/ (w = TouchChat cid /\ ok1 = true)).
Proof.
  unfold handleSendMessage. intros H.
  destruct (selectedChat s) as [c|]; [|simpl in H; member_cases H].
  destruct (Js.truthy (userId s)); [|simpl in H; member_cases H].
  destruct (db s); [|simpl in H; member_cases H].
  destruct (chat_id c) as [cid|] eqn:Hcid; [|simpl in H; member_cases H].
  exists c, cid. destruct cid as [|a t]; [simpl in H; member_cases H|].
  destruct ok1; [destruct ok2|]; simpl in H; member_cases H; subst;
    repeat split; auto.
Qed.

(** Every call an event issues, with the handler and the data it has. *)
Lemma step_writes_origin (s : AppState) (e : event) (w : write) :
  w ∈ (step s e).2 ->
  (exists nm descr newId ok,
      e = SubmitItem nm descr newId ok /\ view s = add_item
      /\ Js.trim nm <> EmptyString
      /\ w = AddItem newId (Js.trim nm) (Js.trim descr) (userId s)
      /\ Js.truthy (userId s) = true /\ db s = true)
  \/ (exists ok it,
        e = ClickContact ok /\ canContact s = true
        /\ selectedItem s = Some it
        /\ w = UpsertChat (getChatDocId (userId s) (ownerId it))
                 (Js.sort_default [userId s; ownerId it]) (item_id it)
        /\ Js.truthy (userId s) = true /\ db s = true)
  \/ (exists txt newId ok1 ok2 c cid,
        e = SendMessage txt newId ok1 ok2 /\ view s = chat
        /\ selectedChat s = Some c /\ chat_id c = Some cid
        /\ Js.trim txt <> EmptyString
        /\ Js.truthy (userId s) = true /\ db s = true
        /\ (w = AddMessage cid newId (userId s) (Js.trim txt)
            \/ (w = TouchChat cid /\ ok1 = true)))
  \/ (exists ok it i,
        (e = ModalConfirm ok /\ onConfirm (modal s) = Some (ConfirmReturn it)
         \/ e = ModalCancel /\ onCancel (modal s) = Some (ConfirmReturn it))
        /\ isOpen (modal s) = true /\ item_id it = Some i
        /\ w = MarkReturned i).
Proof.
  intros H. destruct e; simpl in H.
  - destruct (nav_button s v); simpl in H; member_cases H.
  - left. destruct (view s) eqn:Hv; simpl in H; try member_cases H.
    destruct (Js.trim itemName0) as [|a nm'] eqn:Hn; [simpl in H; member_cases H|].
    simpl in H. apply handleAddItem_origin in H as (-> & Hu & Hdb).
    exists itemName0, description0, newId, ok. rewrite Hn. by repeat split.
  - destruct (is_view _ _); simpl in H; member_cases H.
  - right; left. destruct (canContact s) eqn:Hc; [|simpl in H; member_cases H].
    apply handleStartChat_origin in H as (it & Hit & -> & Hu & Hdb).
    by exists ok, it.
  - destruct (canMarkReturned s); simpl in H; member_cases H.
  - do 3 right. unfold clickModalConfirm in H.
    destruct (isOpen (modal s)) eqn:Ho; [|simpl in H; member_cases H].
    destruct (onConfirm (modal s)) as [a|] eqn:Ha; [|simpl in H; member_cases H].
    destruct w; try (by apply run_action_writes in H as (it & -> & Hid);
                     exists ok, it, docId; auto);
      destruct a as [| |it]; simpl in H; try member_cases H;
      destruct (item_id it); simpl in H; try member_cases H;
      destruct (_ || _); simpl in H; try member_cases H;
      destruct ok; simpl in H; member_cases H.
  - do 3 right. unfold clickModalCancel in H.
    destruct (isOpen (modal s)) eqn:Ho; [|simpl in H; member_cases H].
    destruct (onCancel (modal s)) as [a|] eqn:Ha; [|simpl in H; member_cases H].
    destruct w; try (by apply run_action_writes in H as (it & -> & Hid);
                     exists true, it, docId; auto);
      destruct a as [| |it]; simpl in H; try member_cases H;
      destruct (item_id it); simpl in H; try member_cases H;
      destruct (_ || _); simpl in H; member_cases H.
  - do 2 right; left. destruct (view s) eqn:Hv; try (simpl in H; member_cases H).
    destruct (selectedChat s) as [c0|] eqn:Hc; [|simpl in H; member_cases H].
    destruct (selectedUser s); [|simpl in H; member_cases H].
    destruct (Js.trim message0) as [|a t] eqn:Ht; [simpl in H; member_cases H|].
    simpl in H.
    apply handleSendMessage_origin in H as (c & cid & Hc' & Hid & Hu & Hdb & Hw).
    exists message0, newId, ok1, ok2, c, cid. rewrite Ht.
    repeat split; try done. congruence.
  - destruct (is_view _ _); simpl in H; member_cases H.
  - member_cases H.
  - member_cases H.
  - member_cases H.
  - member_cases H.
Qed.

Lemma handleSendMessage_shape (s : AppState) (txt newId : string)
    (ok1 ok2 : bool) :
  let ws := (handleSendMessage s txt newId ok1 ok2).2 in
  ws = []
  \/ exists cid, selectedChat s ≫= chat_id = Some cid
       /\ (ws = [AddMessage cid newId (userId s) txt] /\ ok1 = false
           \/ ws = [AddMessage cid newId (userId s) txt; TouchChat cid]
              /\ ok1 = true).
Proof.
  unfold handleSendMessage.
  destruct (selectedChat s) as [c|]; [|by left].
  destruct (_ || _); [by left|].
  destruct (chat_id c) as [cid|] eqn:Hcid; [|by left].
  destruct cid as [|a t]; [by left|]. right. exists (String a t).
  split; [done|]. destruct ok1; [destruct ok2|]; simpl; auto.
Qed.

(** X4. Every item document the program creates has a non-empty name
    without surrounding white space, a description without surrounding
    white space and the signed-in principal as owner; it is created from
    the new-item form and is the only call of its event. *)
Theorem registered_items_are_named (s : AppState) (e : event)
    (docId nm descr : string) (owner : option string) :
  AddItem docId nm descr owner ∈ (step s e).2 ->
  nm <> EmptyString /\ Js.trim nm = nm /\ Js.trim descr = descr
  /\ owner = userId s /\ Js.truthy owner = true
  /\ view s = add_item
  /\ (step s e).2 = [AddItem docId nm descr owner].
Proof.
  intros H. pose proof H as H0.
  apply step_writes_origin in H
    as [(nm0 & d0 & id0 & ok & -> & Hv & Hne & [= -> -> -> ->] & Hu & Hdb)
       |[(ok & it & _ & _ & _ & Hw & _)
        |[(t & n & o1 & o2 & c & cid & _ & _ & _ & _ & _ & _ & _ & [Hw|[Hw _]])
         |(ok & it & i & _ & _ & _ & Hw)]]]; try discriminate Hw.
  rewrite !trim_idem. repeat split; try done.
  simpl. rewrite Hv. simpl.
  destruct (Js.trim nm0) eqn:Hn; [done|]. simpl.
  unfold handleAddItem. rewrite Hu, Hdb. simpl. by destruct ok.
Qed.

Lemma registered_items_are_named_witness :
  (step Cases.finder_adding (SubmitItem "  Hat " " grey" "itemN" true)).2
  = [AddItem "itemN" "Hat" "grey" (Some "u2")].
Proof.
  exact (proj2 (proj2 (proj2 (proj2 (proj2 (proj2
    (registered_items_are_named Cases.finder_adding
       (SubmitItem "  Hat " " grey" "itemN" true) "itemN" "Hat" "grey"
       (Some "u2") (list_elem_of_here _ _)))))))).
Defined.

(** X5. Every message the program stores has a non-empty text without
    surrounding white space, the signed-in principal as sender, and goes
    to the chat selected on the chat view; and the merge write of
    [lastMessageAt] alone, the second call of [handleSendMessage], is
    issued only right after the message was added to that same chat in
    the same event (the event of a send whose first call succeeded), never
    on its own. (The contact write of
    [handleStartChat] sets [lastMessageAt] as well.) *)
Theorem sent_messages_are_text (s : AppState) (e : event) :
  (forall cid docId sender txt,
     AddMessage cid docId sender txt ∈ (step s e).2 ->
     txt <> EmptyString /\ Js.trim txt = txt
     /\ sender = userId s /\ Js.truthy sender = true
     /\ view s = chat /\ selectedChat s ≫= chat_id = Some cid)
  /\ (forall cid,
        TouchChat cid ∈ (step s e).2 ->
        exists raw docId ok2,
          e = SendMessage raw docId true ok2
          /\ (step s e).2
             = [AddMessage cid docId (userId s) (Js.trim raw); TouchChat cid]).
Proof.
  split.
  - intros cid docId sender txt H.
    apply step_writes_origin in H
      as [(nm0 & d0 & id0 & ok & _ & _ & _ & Hw & _)
         |[(ok & it & _ & _ & _ & Hw & _)
          |[(t & n & o1 & o2 & c & cid' & -> & Hv & Hc & Hid & Hne & Hu & Hdb & [Hw|[Hw _]])
           |(ok & it & i & _ & _ & _ & Hw)]]]; try discriminate Hw.
    injection Hw as -> -> -> ->. rewrite trim_idem, Hc. by repeat split.
  - intros cid H. pose proof H as H0.
    apply step_writes_origin in H
      as [(nm0 & d0 & id0 & ok & _ & _ & _ & Hw & _)
         |[(ok & it & _ & _ & _ & Hw & _)
          |[(t & n & o1 & o2 & c & cid' & -> & Hv & Hc & Hid & Hne & Hu & Hdb & [Hw|[Hw ->]])
           |(ok & it & i & _ & _ & _ & Hw)]]]; try discriminate Hw.
    injection Hw as ->. simpl in *. rewrite Hv, Hc in *.
    destruct (selectedUser s); [|member_cases H0].
    destruct (Js.trim t) as [|a t'] eqn:Ht; [done|]. simpl in *.
    destruct (handleSendMessage_shape s (String a t') n true o2)
      as [Hws|(c1 & Hc1 & [[Hws ?]|[Hws _]])]; try done.
    + rewrite Hws in H0. member_cases H0.
    + cbv zeta in Hws. exists t, n, o2. split; [done|].
      rewrite Hws, Ht. rewrite Hc in Hc1. simpl in Hc1.
      rewrite Hid in Hc1. by injection Hc1 as <-.
Qed.

(** X6. A chat document is written by two calls only. The keyed merge
    write of participants, item reference and [lastMessageAt] comes from
    the contact button of the owner view, shown to a principal who is not
    the item's owner while the item is not returned; its id and its
    participants are those of the signed-in principal and the owner
    recorded on the selected item, and it refers to that item. The merge
    write of [lastMessageAt] alone comes from sending a message on the
    chat view, to the id of the selected chat; it keeps the participants
    and the item reference of a document that exists, and creates a
    document without them when there is none. No other call changes a
    chat document. *)
Theorem chat_documents_are_written_by_two_calls (s : AppState) (e : event) :
  (forall cid ps i,
     UpsertChat cid ps i ∈ (step s e).2 ->
     exists ok it,
       e = ClickContact ok /\ selectedItem s = Some it
       /\ cid = getChatDocId (userId s) (ownerId it)
       /\ ps = Js.sort_default [userId s; ownerId it]
       /\ i = item_id it
       /\ view s = user_profile /\ isOwner s = false /\ isReturned s = false
       /\ Js.truthy (userId s) = true)
  /\ (forall cid,
        TouchChat cid ∈ (step s e).2 ->
        exists txt newId ok2 c,
          e = SendMessage txt newId true ok2 /\ view s = chat
          /\ selectedChat s = Some c /\ chat_id c = Some cid
          /\ Js.truthy (userId s) = true)
  /\ (forall w now st cid,
        chats_col (apply_write now w st) !! cid <> chats_col st !! cid ->
        (exists ps i, w = UpsertChat cid ps i) \/ w = TouchChat cid)
  /\ (forall now st cid,
        chats_col (apply_write now (TouchChat cid) st) !! cid
        = Some {| chat_id := chats_col st !! cid ≫= chat_id;
                  participants := chats_col st !! cid ≫= participants;
                  itemId := chats_col st !! cid ≫= itemId;
                  lastMessageAt := Some {| seconds := now |};
                  messages := chats_col st !! cid ≫= messages |}).
Proof.
  split; [|split; [|split]].
  - intros cid ps i H.
    apply step_writes_origin in H
      as [(nm0 & d0 & id0 & ok & _ & _ & _ & Hw & _)
         |[(ok & it & -> & Hcan & Hit & Hw & Hu & _)
          |[(t & n & o1 & o2 & c & cid' & _ & _ & _ & _ & _ & _ & _ & [Hw|[Hw _]])
           |(ok & it & i' & _ & _ & _ & Hw)]]]; try discriminate Hw.
    injection Hw as -> -> ->. exists ok, it.
    unfold canContact, profileShown in Hcan.
    destruct (view s); try discriminate Hcan.
    destruct (isOwner s); [by rewrite andb_false_r in Hcan|].
    destruct (isReturned s); [by rewrite andb_false_r in Hcan|].
    by repeat split.
  - intros cid H.
    apply step_writes_origin in H
      as [(nm0 & d0 & id0 & ok & _ & _ & _ & Hw & _)
         |[(ok & it & _ & _ & _ & Hw & _)
          |[(t & n & o1 & o2 & c & cid' & -> & Hv & Hc & Hid & _ & Hu & _ & [Hw|[Hw ->]])
           |(ok & it & i' & _ & _ & _ & Hw)]]]; try discriminate Hw.
    injection Hw as ->. by exists t, n, o2, c.
  - intros w now st cid Hne.
    destruct w as [| |c' ps i| |c']; simpl in Hne; try done.
    + destruct (decide (c' = cid)) as [->|Hc]; [left; eauto|].
      by rewrite lookup_insert_ne in Hne.
    + destruct (decide (c' = cid)) as [->|Hc]; [by right|].
      by rewrite lookup_insert_ne in Hne.
  - intros now st cid. simpl. rewrite lookup_insert_eq.
    by destruct (chats_col st !! cid).
Qed.

Lemma chat_documents_are_written_by_two_calls_witness :
  exists ok it,
    ClickContact true = ClickContact ok
    /\ selectedItem Scenario.finder_at_owner = Some it.
Proof.
  destruct (proj1 (chat_documents_are_written_by_two_calls
    Scenario.finder_at_owner (ClickContact true))
    "u1_u2" [Some "u1"; Some "u2"] (Some "itemX")
    (list_elem_of_here _ _)) as (ok & it & H1 & H2 & _).
  exact (ex_intro _ ok (ex_intro _ it (conj H1 H2))).
Defined.

(** ** What the store holds after a call *)

(** X8. Sending a message to the selected chat, when both calls succeed,
    leaves the sender's state as it is (the message comes back through the
    listener) and, in the store, adds exactly one message document with the
    sender and the text, and refreshes the chat's [lastMessageAt] while its
    participants and its item reference stay; other chats, other messages
    and the items are untouched. *)
Theorem message_reaches_store (s : AppState) (txt newId cid : string)
    (c ch : Chat) (st : Store) (now : Z) :
  db s = true -> Js.truthy (userId s) = true ->
  selectedChat s = Some c -> chat_id c = Some cid ->
  Js.truthy (Some cid) = true ->
  chats_col st !! cid = Some ch ->
  let '(s', ws) := handleSendMessage s txt newId true true in
  let st' := apply_writes now ws st in
  s' = s
  /\ ws = [AddMessage cid newId (userId s) txt; TouchChat cid]
  /\ messages_col st' !! (cid, newId)
     = Some {| message_id := None; senderId := userId s; text := Some txt;
               timestamp := Some {| seconds := now |} |}
  /\ (forall k, k <> (cid, newId) ->
        messages_col st' !! k = messages_col st !! k)
  /\ chats_col st' !! cid
     = Some {| chat_id := chat_id ch; participants := participants ch;
               itemId := itemId ch;
               lastMessageAt := Some {| seconds := now |};
               messages := messages ch |}
  /\ (forall k, k <> cid -> chats_col st' !! k = chats_col st !! k)
  /\ items_col st' = items_col st.
Proof.
  intros Hdb Hu Hc Hid Ht Hch. unfold handleSendMessage.
  rewrite Hc, Hu, Hdb, Hid, Ht. simpl. rewrite Hch. simpl.
  repeat split; try done.
  - by rewrite lookup_insert_eq.
  - intros k Hk. by rewrite lookup_insert_ne.
  - by rewrite lookup_insert_eq.
  - intros k Hk. by rewrite lookup_insert_ne.
Qed.

Lemma message_reaches_store_witness :
  (handleSendMessage (app Scenario.session_chatting) "Found it" "m2" true true).2
  = [AddMessage "u1_u2" "m2" (Some "u2") "Found it"; TouchChat "u1_u2"].
Proof.
  pose proof (message_reaches_store (app Scenario.session_chatting)
    "Found it" "m2" "u1_u2"
    {| chat_id := Some "u1_u2"; participants := Some [Some "u2"; Some "u1"];
       itemId := None; lastMessageAt := None; messages := Some [] |}
    {| chat_id := None; participants := Some [Some "u1"; Some "u2"];
       itemId := Some "itemX";
       lastMessageAt := Some {| seconds := 1700000150 |};
       messages := None |}
    Cases.store0 1700000400 eq_refl eq_refl eq_refl eq_refl eq_refl eq_refl)
    as H.
  destruct (handleSendMessage (app Scenario.session_chatting) "Found it" "m2"
              true true) as [s' ws].
  exact (proj1 (proj2 H)).
Defined.

(** X9. The write that marks an item returned changes the status of that
    one document and nothing else: its name, description, owner and
    creation time stay, no document is added or removed, chats and
    messages are untouched. When the items listener of the owner then
    delivers the collection, the item is in the owner's list with status
    ['returned']. *)
Theorem marking_returned_changes_only_status (st : Store) (now : Z)
    (docId u : string) (it : Item) (s : AppState) :
  items_col st !! docId = Some it ->
  userId s = Some u -> ownerId it = Some u ->
  let st' := apply_write now (MarkReturned docId) st in
  let s' := (step s (ItemsSnapshot (items_col st'))).1 in
  (exists it', items_col st' !! docId = Some it'
     /\ status it' = Some "returned"
     /\ itemName it' = itemName it /\ description it' = description it
     /\ ownerId it' = ownerId it /\ createdAt it' = createdAt it
     /\ item_id it' = item_id it
     /\ with_id docId it' ∈ myItems s'
     /\ has_status "returned" (with_id docId it') = true)
  /\ (forall k, k <> docId -> items_col st' !! k = items_col st !! k)
  /\ dom (items_col st') = dom (items_col st)
  /\ chats_col st' = chats_col st /\ messages_col st' = messages_col st.
Proof.
  intros Hit Hu Ho st' s'. split; [|split; [|split]].
  - exists (with_status "returned" it). subst st' s'. simpl.
    rewrite Hit. simpl. rewrite lookup_insert_eq. repeat split.
    apply elem_of_myItems. split.
    + exists docId. simpl. rewrite map_lookup_imap, lookup_insert_eq. done.
    + simpl. rewrite Ho, Hu. simpl. apply String.eqb_refl.
  - intros k Hk. subst st'. simpl. by rewrite lookup_insert_ne.
  - subst st'. simpl. rewrite dom_insert_L.
    apply subseteq_union_1_L, singleton_subseteq_l.
    by apply (elem_of_dom_2 (D := gset string)) in Hit.
  - done.
Qed.

Lemma marking_returned_changes_only_status_witness :
  dom (items_col (apply_write 9 (MarkReturned "itemX") Cases.store0))
  = dom (items_col Cases.store0).
Proof.
  exact (proj1 (proj2 (proj2 (marking_returned_changes_only_status
    Cases.store0 9 "itemX" "u1"
    {| item_id := None; itemName := Some "Blue Backpack";
       description := Some "left pocket torn"; ownerId := Some "u1";
       status := Some "missing";
       createdAt := Some {| seconds := 1700000000 |} |}
    Scenario.owner_dashboard eq_refl eq_refl eq_refl)))).
Defined.

(** ** Confirming a return, end to end *)

Lemma currentItem_lookup (s : AppState) (i : string) (x : Item) :
  selectedItem s ≫= item_id = Some i -> items s !! i = Some x ->
  currentItem s = Some x.
Proof. intros Hi Hx. unfold currentItem, Js.get. rewrite Hi. simpl. by rewrite Hx. Qed.

(** X10. A non-owner who presses the return button and confirms issues
    exactly the one status write for the selected item's id and gets the
    success notice; the badge, which shows the listener's copy of the
    item, still reads MISSING and the view is unchanged. When the items
    listener delivers the collection after the store has taken the write,
    the badge reads RETURNED and both buttons are off. *)
Theorem confirmed_return_shows_after_snapshot (s : AppState) (it x d : Item)
    (i : string) (st : Store) (now : Z) :
  canMarkReturned s = true -> selectedItem s = Some it ->
  item_id it = Some i -> Js.truthy (Some i) = true -> db s = true ->
  items s !! i = Some x -> items_col st !! i = Some d ->
  let s1 := (step s ClickMarkReturned).1 in
  let '(s2, ws) := step s1 (ModalConfirm true) in
  let st' := apply_writes now ws st in
  let s3 := (step s2 (ItemsSnapshot (items_col st'))).1 in
  ws = [MarkReturned i]
  /\ view s2 = view s
  /\ currentItem s2 = Some x /\ currentItem s = Some x
  /\ visibleStatus s2 = "MISSING"
  /\ title (modal s2) = Some "Success"
  /\ visibleStatus s3 = "RETURNED"
  /\ canMarkReturned s3 = false /\ canContact s3 = false.
Proof.
  intros Hcan Hsel Hid Ht Hdb Hx Hd.
  destruct i as [|a t]; [discriminate Ht|]. set (i := String a t) in *.
  simpl. rewrite Hcan. simpl.
  unfold handleMarkReturned. rewrite Hsel, Hdb. simpl.
  unfold clickModalConfirm. simpl. rewrite Hid, Hdb. simpl.
  assert (Hmiss : isReturned s = false).
  { unfold canMarkReturned in Hcan. destruct (isReturned s); [|done].
    by rewrite andb_false_r in Hcan. }
  rewrite Hsel. simpl default.
  set (s2 := setModal _ (setSelectedItem _ (setModal closed_modal _))).
  set (s3 := setItems _ s2).
  assert (Hcur : currentItem s = Some x).
  { apply (currentItem_lookup s i); [by rewrite Hsel|done]. }
  assert (Hcur2 : currentItem s2 = Some x) by by apply (currentItem_lookup s2 i).
  assert (Hret3 : isReturned s3 = true).
  { unfold isReturned.
    rewrite (currentItem_lookup s3 i
               (with_id i (with_status "returned" d))); [|done|].
    - apply has_status_with_status.
    - subst s3. simpl. rewrite map_lookup_imap, lookup_insert_eq. simpl.
      by rewrite Hd. }
  repeat split; try done.
  - unfold visibleStatus, isReturned. rewrite Hcur2.
    unfold isReturned in Hmiss. rewrite Hcur in Hmiss. by rewrite Hmiss.
  - unfold visibleStatus. by rewrite Hret3.
  - unfold canMarkReturned. rewrite Hret3. by rewrite andb_false_r.
  - unfold canContact. rewrite Hret3. by rewrite andb_false_r.
Qed.

Lemma confirmed_return_shows_after_snapshot_witness :
  (step (step Scenario.finder_at_owner ClickMarkReturned).1
     (ModalConfirm true)).2
  = [MarkReturned "itemX"].
Proof.
  pose proof (confirmed_return_shows_after_snapshot Scenario.finder_at_owner
    Scenario.backpack Scenario.backpack
    {| item_id := None; itemName := Some "Blue Backpack";
       description := Some "left pocket torn"; ownerId := Some "u1";
       status := Some "missing";
       createdAt := Some {| seconds := 1700000000 |} |}
    "itemX" Cases.store0 1700000600
    eq_refl eq_refl eq_refl eq_refl eq_refl eq_refl eq_refl) as H.
  cbv zeta in H.
  destruct (step (step Scenario.finder_at_owner ClickMarkReturned).1
              (ModalConfirm true)) as [s2 ws].
  exact (proj1 H).
Defined.

(** ** When the store rejects a call *)

Lemma notice_dismissed (ttl msg : string) (s : AppState) (ok : bool) :
  step (setModal (notice ttl msg) s) (ModalConfirm ok)
  = (setModal closed_modal s, []).
Proof. reflexivity. Qed.

(** X11. An event whose store call is rejected changes nothing but the
    modal: the view, the selection, the cached collections and the user
    stay. The modal is left as it was, closed, or replaced by a notice
    with a single button, and pressing that button closes the notice
    without issuing any call. *)
Theorem rejected_call_only_opens_a_notice (s : AppState) (e : event) :
  rejected e = true ->
  exists m,
    (step s e).1 = setModal m s
    /\ (m = modal s \/ m = closed_modal
        \/ exists ttl msg,
             m = notice ttl msg
             /\ forall ok, step (step s e).1 (ModalConfirm ok)
                           = (setModal closed_modal s, [])).
Proof.
  assert (Hsame : s = setModal (modal s) s) by by destruct s.
  assert (Hstay : exists m, s = setModal m s /\
            (m = modal s \/ m = closed_modal
             \/ exists ttl msg, m = notice ttl msg
                  /\ forall ok, step s (ModalConfirm ok)
                                = (setModal closed_modal s, [])))
    by (exists (modal s); auto).
  assert (Hnote : forall ttl msg, exists m,
            setModal (notice ttl msg) s = setModal m s /\
            (m = modal s \/ m = closed_modal
             \/ exists ttl' msg', m = notice ttl' msg'
                  /\ forall ok, step (setModal (notice ttl msg) s) (ModalConfirm ok)
                                = (setModal closed_modal s, []))).
  { intros ttl msg. exists (notice ttl msg). split; [done|].
    do 2 right. exists ttl, msg. split; [done|]. intros ok.
    apply notice_dismissed. }
  intros Hrej.
  destruct e as [| nm descr newId [|] | | [|] | | [|] | | txt newId ok1 ok2
                 | | | | |]; try discriminate Hrej; simpl.
  - destruct (_ && _); [|exact Hstay]. unfold handleAddItem.
    destruct (_ || _); [exact Hstay|]. apply Hnote.
  - destruct (canContact s); [|exact Hstay]. unfold handleStartChat.
    destruct (selectedItem s); [|exact Hstay].
    destruct (selectedUser s); [|exact Hstay].
    destruct (negb (Js.truthy (userId s))); [exact Hstay|].
    destruct (_ || _); apply Hnote.
  - unfold clickModalConfirm. destruct (isOpen (modal s)); [|exact Hstay].
    destruct (onConfirm (modal s)) as [[| |it]|]; try exact Hstay.
    + exists closed_modal. auto.
    + simpl. destruct (item_id it); [destruct (_ || _)|];
        exists (notice "Error" "Failed to update item status.");
        (split; [done|]); do 2 right; eexists _, _; (split; [done|]);
        intros ok; reflexivity.
  - destruct (view s); try exact Hstay.
    destruct (selectedChat s) as [c|] eqn:Hc; [|exact Hstay].
    destruct (selectedUser s); [|exact Hstay].
    destruct (Js.trim txt) as [|a t]; [exact Hstay|].
    unfold handleSendMessage. rewrite Hc.
    destruct (_ || _); [exact Hstay|].
    destruct (chat_id c) as [cid|]; [|apply Hnote].
    destruct (negb (Js.truthy (Some cid))); [apply Hnote|].
    destruct ok1; [destruct ok2; [discriminate Hrej|]|]; apply Hnote.
Qed.

Lemma rejected_call_only_opens_a_notice_witness :
  exists m, (step Scenario.finder_at_owner (ClickContact false)).1
            = setModal m Scenario.finder_at_owner.
Proof.
  destruct (rejected_call_only_opens_a_notice Scenario.finder_at_owner
    (ClickContact false) eq_refl) as (m & H & _).
  exact (ex_intro _ m H).
Defined.

(** ** Signing out and the listener *)

Lemma session_step_ok (σ : Session) (e : event) :
  session_ok σ \/ live (listener σ) = None ->
  session_ok (session_step σ e).1.1.
Proof.
  intros Hpre. unfold session_step.
  destruct (match e, live (listener σ) with
            | MessagesSnapshot _, None => (app σ, [])
            | _, _ => step (app σ) e
            end) as [s' ws].
  pose proof (messagesEffect_spec s' (listener σ)) as Heff.
  destruct (messagesEffect s' (listener σ)) as [l' subs].
  cbv zeta in Heff. destruct Heff as (Hlast & Hsame & Hdiff).
  split; simpl; [done|].
  destruct (decide (lastDeps (listener σ)
                    = Some (selectedChat s' ≫= chat_id))) as [Heq|Hne].
  - destruct (Hsame Heq) as [-> _].
    destruct Hpre as [[_ Hok]|Hnone]; [done|by rewrite Hnone].
  - destruct (Hdiff Hne) as [[Hl|Hl] _]; rewrite Hl; [done|].
    destruct (selectedChat s' ≫= chat_id); [by rewrite Hlast|done].
Qed.

(** X12. From a mounted component (no listener attached yet, or a
    consistent session) every sequence of events keeps the session
    consistent: whenever a message listener is attached it is the
    listener of the chat that is selected, so its callbacks fill the
    messages of that chat and of no other. *)
Theorem listener_belongs_to_selected_chat (σ : Session) (es : list event) :
  session_ok σ \/ (live (listener σ) = None /\ es <> []) ->
  session_ok (run σ es)
  /\ (forall c, live (listener (run σ es)) = Some c ->
        selectedChat (app (run σ es)) ≫= chat_id = Some c).
Proof.
  intros Hpre.
  assert (Hok : session_ok (run σ es)).
  { unfold run. revert σ Hpre. induction es as [|e es IH]; intros σ Hpre.
    - by destruct Hpre as [H|[_ H]].
    - simpl. apply IH. left. apply session_step_ok.
      destruct Hpre as [H|[H _]]; auto. }
  split; [done|]. intros c Hc. destruct Hok as [Hsync Hlive].
  rewrite Hc in Hlive. rewrite Hlive in Hsync. by injection Hsync.
Qed.

Lemma listener_belongs_to_selected_chat_witness :
  session_ok (run Scenario.session_at_owner
                [ClickContact true; Navigate user_profile]).
Proof.
  exact (proj1 (listener_belongs_to_selected_chat Scenario.session_at_owner
    [ClickContact true; Navigate user_profile]
    (or_introl (conj eq_refl I)))).
Defined.

(** X13. Signing out from the dashboard issues no store call. With the
    Auth handle set and [signOut] resolved it clears the user and the
    selected item, user and chat, and shows the login view; the cached
    collections are kept but the list of own items is empty and every
    scan stops with "App not initialized."; and the render after it tears
    down the message listener that was attached. When [signOut] is
    rejected, or without an Auth handle, nothing is cleared: the session
    is left exactly as it was. *)
Theorem logout_ends_session (σ : Session) :
  view (app σ) = dashboard -> session_ok σ ->
  (auth (app σ) = true ->
   let '(σ', ws, subs) := session_step σ (Logout true) in
   ws = []
   /\ userId (app σ') = None /\ view (app σ') = login
   /\ selectedItem (app σ') = None /\ selectedUser (app σ') = None
   /\ selectedChat (app σ') = None
   /\ items (app σ') = items (app σ) /\ users (app σ') = users (app σ)
   /\ myItems (app σ') = []
   /\ (forall read itemId,
         handleScanResult (app σ') read itemId
         = (app σ', Thrown msg_not_initialized, []))
   /\ live (listener σ') = None
   /\ (forall c, live (listener σ) = Some c -> subs = [Unsubscribe c]))
  /\ (auth (app σ) = true -> session_step σ (Logout false) = (σ, [], []))
  /\ (forall ok,
        auth (app σ) = false -> session_step σ (Logout ok) = (σ, [], [])).
Proof.
  intros Hv [Hsync Hlive].
  assert (Hstay : forall ok, step (app σ) (Logout ok) = (app σ, []) ->
            session_step σ (Logout ok) = (σ, [], [])).
  { intros ok Hstep. unfold session_step.
    replace (match live (listener σ) with
             | Some _ | _ => step (app σ) (Logout ok)
             end) with (step (app σ) (Logout ok))
      by by destruct (live (listener σ)).
    rewrite Hstep. unfold messagesEffect.
    rewrite bool_decide_eq_true_2 by done. by destruct σ. }
  split; [|split].
  - intros Hauth. unfold session_step. simpl.
    rewrite Hv. simpl. unfold handleLogout. rewrite Hauth.
    set (s' := setView login _).
    pose proof (messagesEffect_spec s' (listener σ)) as Heff.
    destruct (messagesEffect s' (listener σ)) as [l' subs].
    cbv zeta in Heff. simpl in Heff. destruct Heff as (Hlast & Hsame & Hdiff).
    simpl. repeat split; try done.
    + unfold myItems. simpl.
      induction (Js.values (items (app σ))) as [|x l IH]; [done|].
      simpl. by destruct (ownerId x).
    + intros read itemId. unfold handleScanResult. simpl.
      by rewrite orb_true_r.
    + destruct (decide (lastDeps (listener σ) = Some None)) as [Heq|Hne].
      * destruct (Hsame Heq) as [-> _].
        destruct (live (listener σ)) as [c|]; [congruence|done].
      * by destruct (Hdiff Hne) as [[Hl|Hl] _].
    + intros c Hc. rewrite Hc in Hlive.
      destruct Hdiff as [_ Hsubs]; [congruence|]. rewrite Hc in Hsubs.
      destruct Hsubs as [Hs|(c' & Hc' & _)]; [done|discriminate Hc'].
  - intros Hauth. apply Hstay. simpl. rewrite Hv. simpl.
    unfold handleLogout. by rewrite Hauth.
  - intros ok Hauth. apply Hstay. simpl. rewrite Hv. simpl.
    unfold handleLogout. by rewrite Hauth.
Qed.

Lemma logout_ends_session_witness :
  (let '(σ', ws, subs) :=
     session_step Cases.session_after_chat (Logout true) in
   ws = [] /\ subs = [Unsubscribe "u1_u2"])
  /\ session_step Cases.session_after_chat (Logout false)
     = (Cases.session_after_chat, [], []).
Proof.
  pose proof (logout_ends_session Cases.session_after_chat
    eq_refl (conj eq_refl eq_refl)) as (H & Hno & _).
  specialize (H eq_refl). split; [|exact (Hno eq_refl)].
  destruct (session_step Cases.session_after_chat (Logout true))
    as [[σ' ws] subs].
  destruct H as (H1 & H). repeat destruct H as (_ & H).
  exact (conj H1 (H "u1_u2" eq_refl)).
Defined.

(** ** Chat identifiers, continued *)

Lemma getChatDocId_shape (a b : string) :
  getChatDocId (Some a) (Some b)
  = if Js.default_compare a b <=? 0 then a ++ "_" ++ b else b ++ "_" ++ a.
Proof.
  unfold getChatDocId, Js.sort_default. simpl.
  destruct (Js.default_compare a b <=? 0); reflexivity.
Qed.

Lemma separator_splits (x x' y y' : string) :
  has_unit "_" x = false -> has_unit "_" x' = false ->
  x ++ "_" ++ y = x' ++ "_" ++ y' -> x = x' /\ y = y'.
Proof.
  revert x'. induction x as [|c x IH]; intros [|c' x'] Hx Hx' H.
  - by injection H.
  - injection H as <- _. simpl in Hx'. discriminate Hx'.
  - injection H as -> _. simpl in Hx. discriminate Hx.
  - rewrite !append_cons in H. injection H as -> H.
    simpl in Hx, Hx'. apply orb_false_elim in Hx as [_ Hx].
    apply orb_false_elim in Hx' as [_ Hx'].
    destruct (IH x' Hx Hx' H) as [-> ->]. done.
Qed.

(** X14. The chat id of two principals is the smaller uid (in code-unit
    order), an underscore and the larger uid; and for uids that hold no
    underscore, two pairs have the same chat id only if they are the same
    pair, in either order (with underscores ids can collide). *)
Theorem chat_id_identifies_the_pair (a b c d : string) :
  has_unit "_" a = false -> has_unit "_" b = false ->
  has_unit "_" c = false -> has_unit "_" d = false ->
  (getChatDocId (Some a) (Some b) = a ++ "_" ++ b
   \/ getChatDocId (Some a) (Some b) = b ++ "_" ++ a)
  /\ (String.leb a b = true -> getChatDocId (Some a) (Some b) = a ++ "_" ++ b)
  /\ (getChatDocId (Some a) (Some b) = getChatDocId (Some c) (Some d) ->
      (a = c /\ b = d) \/ (a = d /\ b = c)).
Proof.
  intros Ha Hb Hc Hd. rewrite !getChatDocId_shape. split; [|split].
  - destruct (_ <=? 0); auto.
  - unfold String.leb, Js.default_compare.
    by destruct (String.compare a b).
  - destruct (Js.default_compare a b <=? 0), (Js.default_compare c d <=? 0);
      intros H; apply separator_splits in H as [-> ->]; auto.
Qed.

Lemma chat_id_identifies_the_pair_witness :
  getChatDocId (Some "u1") (Some "u2") = "u1_u2".
Proof.
  exact (proj1 (proj2 (chat_id_identifies_the_pair "u1" "u2" "u2" "u1"
    eq_refl eq_refl eq_refl eq_refl)) eq_refl).
Defined.

Example chat_id_collision :
  getChatDocId (Some "a_b") (Some "c") = getChatDocId (Some "a") (Some "b_c").
Proof. reflexivity. Qed.

(** ** The items listener *)

(** X15. After the items listener has delivered a collection whose
    documents carry no [id] field of their own, the cache has one item per
    document, each under its document id and showing that id. So every
    item on the owner's list can be found again by the id it shows: when
    the owner scans it, that very item is selected on its QR view. *)
Theorem listed_items_scan_back (s : AppState) (docs : gmap string Item)
    (read : option string -> ReadResult) :
  (forall k d, docs !! k = Some d -> item_id d = None) ->
  let s' := (step s (ItemsSnapshot docs)).1 in
  dom (items s') = dom docs
  /\ (forall k it, items s' !! k = Some it ->
        item_id it = Some k
        /\ exists d, docs !! k = Some d /\ it = with_id k d
             /\ status it = status d /\ ownerId it = ownerId d
             /\ itemName it = itemName d /\ createdAt it = createdAt d)
  /\ (forall it, it ∈ myItems s' ->
        exists k, item_id it = Some k /\ items s' !! k = Some it
          /\ (db s = true -> Js.truthy (userId s) = true ->
              handleScanResult s' read k
              = (setView item_qr (setSelectedItem (Some it) s'),
                 Thrown msg_own_item, []))).
Proof.
  intros Hnoid s'.
  assert (Hlook : forall k it, items s' !! k = Some it ->
            item_id it = Some k /\ exists d, docs !! k = Some d /\ it = with_id k d
              /\ status it = status d /\ ownerId it = ownerId d
              /\ itemName it = itemName d /\ createdAt it = createdAt d).
  { intros k it. subst s'. rewrite items_after_snapshot.
    destruct (docs !! k) as [d|] eqn:Hd; [|done]. simpl. intros [= <-].
    split; [simpl; by rewrite (Hnoid k d Hd)|]. by exists d. }
  split; [|split; [exact Hlook|]].
  - apply set_eq. intros k. rewrite !elem_of_dom. subst s'.
    rewrite items_after_snapshot. by rewrite fmap_is_Some.
  - intros it [[k Hk] Hown]%elem_of_myItems.
    exists k. destruct (Hlook k it Hk) as [Hid _]. repeat split; try done.
    intros Hdb Hu. unfold handleScanResult, Js.get.
    change (db s') with (db s). change (userId s') with (userId s) in *.
    by rewrite Hdb, Hu, Hk, Hown.
Qed.

Lemma listed_items_scan_back_witness :
  dom (items (step Cases.finder_dashboard
                (ItemsSnapshot (items_col Cases.store0))).1)
  = dom (items_col Cases.store0).
Proof.
  refine (proj1 (listed_items_scan_back Cases.finder_dashboard
    (items_col Cases.store0) Scenario.profile_store _)).
  intros k d Hd.
  destruct (decide (k = "itemX")) as [->|Hx];
    [by injection Hd as <-|].
  destruct (decide (k = "itemY")) as [->|Hy];
    [by injection Hd as <-|].
  unfold Cases.store0 in Hd. simpl in Hd.
  rewrite lookup_insert_ne, lookup_insert_ne, lookup_empty in Hd by done.
  discriminate Hd.
Defined.

(** ** What trimming keeps *)

Lemma trimStart_split (s : string) :
  exists pre, Js.all_space pre = true /\ s = pre ++ Js.trimStart s.
Proof.
  induction s as [|c s (pre & Hpre & IH)]; [by exists EmptyString|].
  simpl. destruct (Js.is_space c) eqn:Hc.
  - exists (String c pre). split; [simpl; by rewrite Hc|].
    rewrite append_cons. by f_equal.
  - by exists EmptyString.
Qed.

Lemma trimStart_head (s : string) (c : ascii) (t : string) :
  Js.trimStart s = String c t -> Js.is_space c = false.
Proof.
  induction s as [|d s IH]; simpl; [done|].
  destruct (Js.is_space d) eqn:Hd; [done|]. by intros [= <- _].
Qed.

Lemma trimEnd_split (s : string) :
  exists post, Js.all_space post = true /\ s = Js.trimEnd s ++ post.
Proof.
  induction s as [|c s (post & Hpost & IH)]; [by exists EmptyString|].
  simpl. destruct (Js.trimEnd s) as [|d t] eqn:Ht.
  - change (EmptyString ++ post) with post in IH. subst s.
    destruct (Js.is_space c) eqn:Hc.
    + exists (String c post). split; [simpl; by rewrite Hc|done].
    + by exists post.
  - exists post. split; [done|]. rewrite append_cons. by f_equal.
Qed.

Lemma trimEnd_head (c : ascii) (s : string) (c' : ascii) (t : string) :
  Js.trimEnd (String c s) = String c' t -> c' = c.
Proof.
  simpl. destruct (Js.trimEnd s); [|by intros [= <- _]].
  destruct (Js.is_space c); [done|by intros [= <- _]].
Qed.

Lemma trimEnd_last (s t : string) (c : ascii) :
  Js.trimEnd s = t ++ String c EmptyString -> Js.is_space c = false.
Proof.
  revert t. induction s as [|d s IH]; intros t; simpl.
  - by destruct t.
  - destruct (Js.trimEnd s) as [|e u] eqn:Hs.
    + destruct (Js.is_space d) eqn:Hd; [by destruct t|].
      destruct t as [|x [|y t]]; [by intros [= <-] | done | done].
    + destruct t as [|x t]; [done|]. rewrite append_cons.
      intros [= _ H]. by apply (IH t).
Qed.

(** X16. Trimming removes white space at the two ends and nothing else:
    the text is some white space, the trimmed text, and some white space;
    the trimmed text neither starts nor ends with a white-space character;
    and it is empty exactly when the text is all white space. So the
    identifier a scan looks up never carries surrounding white space. *)
Theorem trim_strips_only_the_ends (s : string) :
  (exists pre post,
      Js.all_space pre = true /\ Js.all_space post = true
      /\ s = pre ++ Js.trim s ++ post)
  /\ (forall c t, Js.trim s = String c t -> Js.is_space c = false)
  /\ (forall t c, Js.trim s = t ++ String c EmptyString ->
        Js.is_space c = false)
  /\ (Js.trim s = EmptyString <-> Js.all_space s = true).
Proof.
  unfold Js.trim.
  destruct (trimStart_split s) as (pre & Hpre & Hs).
  destruct (trimEnd_split (Js.trimStart s)) as (post & Hpost & Hs').
  split; [|split; [|split]].
  - exists pre, post. repeat split; try done. by rewrite <- Hs', <- Hs.
  - intros c t H. destruct (Js.trimStart s) as [|d u] eqn:Hd; [done|].
    apply trimEnd_head in H as ->. by apply (trimStart_head s d u).
  - intros t c. apply trimEnd_last.
  - split.
    + intros H. rewrite H in Hs'.
      change (EmptyString ++ post) with post in Hs'.
      destruct (Js.trimStart s) as [|d u] eqn:Hd.
      * rewrite Hs, append_empty_r. done.
      * subst post. apply (trimStart_head s d u) in Hd.
        simpl in Hpost. by rewrite Hd in Hpost.
    + intros H. by rewrite (trimStart_all_space s H).
Qed.

(** * Configuration, identity and profile *)

(** X17. The configuration passed by the canvas environment is used
    whenever its API key is a string of more than five characters; the
    local one is used only when the canvas one is not valid and the local
    one is; and when neither is valid nothing is initialised. Whatever
    happens during initialisation, the module counts as initialised only
    with a valid configuration and with both the Firestore and the Auth
    handle set. *)
Theorem configuration_choice (canvas : Config) (env : option Config)
    (fault : option InitFault) :
  let chosen := firebaseConfig canvas env in
  let fb := initialise chosen fault in
  (isValidConfig canvas = true -> chosen = canvas)
  /\ (isValidConfig canvas = false ->
      isValidConfig (getLocalConfig env) = true -> chosen = getLocalConfig env)
  /\ (isValidConfig canvas = false ->
      isValidConfig (getLocalConfig env) = false ->
      chosen = canvas
      /\ has_app fb = false /\ has_db fb = false /\ has_auth fb = false
      /\ firebaseInitialized fb = false)
  /\ (firebaseInitialized fb = true ->
      has_db fb = true /\ has_auth fb = true /\ fault = None
      /\ exists key, apiKey chosen = Some key /\ (6 <= String.length key)%nat)
  /\ (env = None -> isValidConfig canvas = false ->
      firebaseInitialized fb = false).
Proof.
  intros chosen fb. subst fb chosen. unfold firebaseConfig.
  split; [by intros ->|]. split; [by intros -> ->|].
  split; [|split].
  - intros Hc Hl. rewrite Hc, Hl. simpl. unfold initialise. by rewrite Hc.
  - unfold initialise.
    set (cfg := if negb (isValidConfig canvas) then _ else _).
    destruct (isValidConfig cfg) eqn:Hv; [|done].
    destruct fault as [[| |]|]; try done. intros _.
    repeat split. unfold isValidConfig in Hv.
    destruct (apiKey cfg) as [key|]; [|done]. exists key. split; [done|].
    apply andb_prop in Hv as [_ Hlen]. simpl in Hlen.
    apply Nat.ltb_lt in Hlen. lia.
  - intros -> Hc. rewrite Hc. simpl. unfold initialise. by rewrite Hc.
Qed.

Lemma configuration_choice_witness :
  firebaseConfig Cases.canvas_config (Some Cases.local_config)
  = Cases.canvas_config
  /\ firebaseConfig empty_config (Some Cases.local_config) = Cases.local_config.
Proof.
  exact (conj
    (proj1 (configuration_choice Cases.canvas_config (Some Cases.local_config)
              None) eq_refl)
    (proj1 (proj2 (configuration_choice empty_config (Some Cases.local_config)
              None)) eq_refl eq_refl)).
Defined.

(** X18. The profile listener routes the views: when the profile document
    does not exist the placeholder named "Anonymous User" becomes the
    profile and the profile form is shown, whatever view was shown; an
    existing profile moves the login view to the dashboard unless its name
    is "Anonymous User", in which case the login view stays and the data
    listeners stay off; and on any other view an existing profile changes
    no view. The callback touches nothing of the state but the view and
    the profile. *)
Theorem profile_snapshot_routes (sh : Shell) (p : UserProfile) :
  let found := onProfileSnapshot (Some p) sh in
  let missing := onProfileSnapshot None sh in
  (view (core sh) = login -> is_anonymous p = false ->
   view (core found) = dashboard)
  /\ (view (core sh) = login -> is_anonymous p = true ->
      view (core found) = login /\ dataListenersOn found = false)
  /\ (view (core sh) <> login -> view (core found) = view (core sh))
  /\ userProfile found = Some p
  /\ view (core missing) = profile_setup
  /\ userProfile missing = Some (placeholder sh)
  /\ name (profile (placeholder sh)) = Some "Anonymous User"
  /\ dataListenersOn missing = false
  /\ (exists v, core found = setView v (core sh))
  /\ (exists v, core missing = setView v (core sh)).
Proof.
  assert (Hself : core sh = setView (view (core sh)) (core sh))
    by by destruct (core sh).
  unfold onProfileSnapshot.
  split; [by intros -> ->|]. split.
  { intros Hv Ha. rewrite Ha. simpl. split; [done|].
    unfold dataListenersOn. simpl. rewrite Ha. by rewrite andb_false_r. }
  split.
  { intros Hv. destruct (negb (is_anonymous p)); [|done].
    destruct (view (core sh)) eqn:E; simpl; rewrite ?E; congruence. }
  split; [by destruct (_ && _)|].
  split; [by destruct (view (core sh)) eqn:E; simpl; rewrite ?E|].
  split; [by destruct (negb _)|].
  split; [done|].
  split.
  { unfold dataListenersOn.
    destruct (negb (is_view _ _)); simpl; by rewrite andb_false_r. }
  split.
  - destruct (_ && _); simpl; eauto.
  - destruct (negb _); simpl; eauto.
Qed.

Lemma handleProfileSetup_done (sh : Shell) (nm photo u : string) :
  userId (core sh) = Some u -> Js.truthy (Some u) = true ->
  db (core sh) = true ->
  handleProfileSetup sh nm photo true true
  = (setCore (setView dashboard (core sh)) sh,
     [SetUserDoc u nm (or_else (user sh ≫= user_email) "N/A") photo
        (userProfile sh ≫= profile_createdAt);
      SetPublicProfile u nm photo (or_else (user sh ≫= user_email) "N/A")]).
Proof.
  intros Hu Ht Hdb. unfold handleProfileSetup. by rewrite Hu, Ht, Hdb.
Qed.

(** X19. Saving a profile, when both calls succeed, shows the dashboard
    and leaves in the store a private document and a public copy that
    agree on uid, name, photo and e-mail (the e-mail of the account, or
    'N/A'); the private document keeps the creation time the profile
    already had, gets the server time otherwise, and its update time is
    the server time. Other users' documents are untouched. When the first
    call is rejected the public copy is not attempted and the view stays. *)
Theorem saved_profile_round_trip (sh : Shell) (nm photo u : string)
    (st : ProfileStore) (now : Z) (ok2 : bool) :
  userId (core sh) = Some u -> Js.truthy (Some u) = true ->
  db (core sh) = true ->
  let '(sh', ws) := handleProfileSetup sh nm photo true true in
  let st' := apply_profile_writes now ws st in
  let em := or_else (user sh ≫= user_email) "N/A" in
  let pub := {| uid := Some u; name := Some nm; email := Some em;
                photoURL := Some photo |} in
  view (core sh') = dashboard
  /\ userProfile sh' = userProfile sh
  /\ user_profiles_col st' !! u = Some pub
  /\ user_docs st' !! u
     = Some {| profile := pub;
               profile_createdAt :=
                 match userProfile sh ≫= profile_createdAt with
                 | Some t => Some t
                 | None => Some {| seconds := now |}
                 end;
               profile_updatedAt := Some {| seconds := now |} |}
  /\ (forall k, k <> u ->
        user_docs st' !! k = user_docs st !! k
        /\ user_profiles_col st' !! k = user_profiles_col st !! k)
  /\ (handleProfileSetup sh nm photo false ok2).2
     = [SetUserDoc u nm em photo (userProfile sh ≫= profile_createdAt)]
  /\ view (core (handleProfileSetup sh nm photo false ok2).1) = view (core sh).
Proof.
  intros Hu Ht Hdb. rewrite (handleProfileSetup_done sh nm photo u Hu Ht Hdb).
  simpl. rewrite !lookup_insert_eq. repeat split; try done.
  - by rewrite lookup_insert_ne.
  - by rewrite lookup_insert_ne.
  - unfold handleProfileSetup. by rewrite Hu, Ht, Hdb.
  - unfold handleProfileSetup. by rewrite Hu, Ht, Hdb.
Qed.

Lemma saved_profile_round_trip_witness :
  user_profiles_col
    (apply_profile_writes 1700000700
       (handleProfileSetup Cases.newcomer "Bo" "data:image/png;base64,AAAA"
          true true).2 Cases.no_profiles) !! "u2"
  = Some {| uid := Some "u2"; name := Some "Bo";
            email := Some "bo@example.org";
            photoURL := Some "data:image/png;base64,AAAA" |}.
Proof.
  pose proof (saved_profile_round_trip Cases.newcomer "Bo"
    "data:image/png;base64,AAAA" "u2" Cases.no_profiles 1700000700 true
    eq_refl eq_refl eq_refl) as H.
  destruct (handleProfileSetup Cases.newcomer "Bo"
              "data:image/png;base64,AAAA" true true) as [sh' ws].
  exact (proj1 (proj2 (proj2 H))).
Defined.

Lemma trim_head (s : string) (c : ascii) (t : string) :
  Js.trim s = String c t -> Js.is_space c = false.
Proof.
  unfold Js.trim. intros H.
  destruct (Js.trimStart s) as [|d u] eqn:Hd; [done|].
  apply trimEnd_head in H as ->. by apply (trimStart_head s d u).
Qed.

Lemma firstWord_split (s : string) :
  exists rest, s = firstWord s ++ rest
    /\ (rest = EmptyString \/ exists r, rest = String " " r)
    /\ has_unit " " (firstWord s) = false.
Proof.
  induction s as [|c s (rest & Hs & Hrest & Hno)]; [by exists EmptyString; auto|].
  simpl. destruct (Ascii.eqb c " ") eqn:Hc.
  - apply Ascii.eqb_eq in Hc as ->. exists (String " " s). eauto.
  - exists rest. rewrite append_cons. split; [by f_equal|]. split; [done|].
    change (has_unit " " (String c (firstWord s)))
      with (Ascii.eqb " " c || has_unit " " (firstWord s)).
    by rewrite Ascii.eqb_sym, Hc, Hno.
Qed.

(** X20. A profile is saved from the form only with a chosen photo and a
    name that is non-empty after trimming, and it is the trimmed name that
    is written, for the signed-in uid. The dashboard greets such a name by
    its first word, which is non-empty and is followed in the name by
    nothing or by a space, and not by the fallback 'User'. *)
Theorem saved_names_are_greeted (sh : Shell) (raw : string)
    (photo : option string) (ok1 ok2 : bool) (u nm em ph : string)
    (created : option Timestamp) (up : UserProfile) :
  SetUserDoc u nm em ph created ∈ (profileSetupSubmit sh raw photo ok1 ok2).2 ->
  name (profile up) = Some nm ->
  nm = Js.trim raw /\ nm <> EmptyString
  /\ photo = Some ph /\ ph <> EmptyString
  /\ userId (core sh) = Some u
  /\ greeting (Some up) = Some (firstWord nm)
  /\ firstWord nm <> EmptyString
  /\ exists rest, nm = firstWord nm ++ rest
       /\ (rest = EmptyString \/ exists r, rest = String " " r).
Proof.
  unfold profileSetupSubmit. intros H Hname.
  destruct photo as [ph0|]; [|member_cases H].
  destruct (Js.trim raw) as [|c t] eqn:Hraw; [simpl in H; member_cases H|].
  destruct ph0 as [|p0 ph1]; [simpl in H; member_cases H|].
  simpl in H. unfold handleProfileSetup in H.
  destruct (userId (core sh)) as [u0|]; [|member_cases H].
  destruct (_ || _); [member_cases H|].
  assert (Hw : u = u0 /\ nm = String c t /\ ph = String p0 ph1).
  { destruct ok1; [destruct ok2|]; simpl in H; member_cases H;
      by injection H as -> -> _ -> _. }
  destruct Hw as (-> & -> & ->).
  pose proof (trim_head raw c t Hraw) as Hc.
  assert (Hsp : Ascii.eqb c " " = false).
  { destruct (Ascii.eqb c " ") eqn:E; [|done].
    apply Ascii.eqb_eq in E as ->. discriminate Hc. }
  repeat split; try done.
  - unfold greeting. rewrite Hname. simpl. by rewrite Hsp.
  - simpl. by rewrite Hsp.
  - destruct (firstWord_split (String c t)) as (rest & H1 & H2 & _). eauto.
Qed.

Lemma saved_names_are_greeted_witness :
  greeting (Some {| profile := {| uid := Some "u2"; name := Some "Bo B";
                                  email := None; photoURL := None |};
                    profile_createdAt := None; profile_updatedAt := None |})
  = Some "Bo".
Proof.
  exact (proj1 (proj2 (proj2 (proj2 (proj2 (proj2
    (saved_names_are_greeted Cases.newcomer "  Bo B " (Some "data:,x")
       true true "u2" "Bo B" "bo@example.org" "data:,x" None
       {| profile := {| uid := Some "u2"; name := Some "Bo B";
                        email := None; photoURL := None |};
          profile_createdAt := None; profile_updatedAt := None |}
       (list_elem_of_here _ _) eq_refl))))))).
Defined.

(** X21. When the auth listener reports that nobody is signed in, the
    login view is shown, the uid is cleared, the profile effect clears the
    profile, and neither the profile listener nor the data listeners are
    attached; the cached collections are left in place. In any state the
    data listeners are attached only for a signed-in principal with a
    handle, after the auth check, with a profile whose name is not
    "Anonymous User"; and signing in sets the uid to the account's uid
    without changing the view. *)
Theorem identity_gates_the_listeners (sh : Shell) (u : User) :
  let out := profileEffect (onAuthStateChanged None sh) in
  let inn := onAuthStateChanged (Some u) sh in
  userId (core out) = None /\ view (core out) = login
  /\ userProfile out = None /\ isAuthReady out = true
  /\ profileListenerOn out = false /\ dataListenersOn out = false
  /\ items (core out) = items (core sh) /\ chats (core out) = chats (core sh)
  /\ (dataListenersOn sh = true ->
      profileListenerOn sh = true
      /\ exists p, userProfile sh = Some p /\ is_anonymous p = false)
  /\ userId (core inn) = Some (user_uid u)
  /\ view (core inn) = view (core sh)
  /\ profileListenerOn inn
     = Js.truthy (Some (user_uid u)) && db (core sh).
Proof.
  cbv zeta. unfold profileEffect, profileListenerOn, dataListenersOn. simpl.
  repeat split.
  - unfold dataListenersOn in H. by apply andb_prop in H as [? _].
  - apply andb_prop in H as [_ H]. destruct (userProfile sh) as [p|]; [|done].
    exists p. split; [done|]. by destruct (is_anonymous p).
  - by rewrite andb_true_r.
Qed.

(** * The QR image address *)

Example generateQRCode_ex :
  generateQRCode (Some "a b&c") =
  "https://api.qrserver.com/v1/create-qr-code/?size=300x300&data=a%20b%26c".
Proof. reflexivity. Qed.

Example encode_high_unit :
  encodeURIComponent (String (ascii_of_nat 233) EmptyString) = "%C3%A9".
Proof. reflexivity. Qed.

Lemma decode_encode_unit (c : ascii) (r : string) :
  decode_unit (encode_unit c ++ r) = Some (c, r).
Proof. destruct c as [[] [] [] [] [] [] [] []]; reflexivity. Qed.

Lemma append_inv_head (p x y : string) : p ++ x = p ++ y -> x = y.
Proof.
  induction p as [|c p IH]; [done|].
  rewrite !append_cons. intros [= H]. by apply IH.
Qed.

Lemma encodeURIComponent_inj (x y : string) :
  encodeURIComponent x = encodeURIComponent y -> x = y.
Proof.
  revert y. induction x as [|c x IH]; intros [|d y] H.
  - done.
  - apply (f_equal decode_unit) in H. simpl in H.
    by rewrite decode_encode_unit in H.
  - apply (f_equal decode_unit) in H. simpl in H.
    by rewrite decode_encode_unit in H.
  - apply (f_equal decode_unit) in H. simpl in H.
    rewrite !decode_encode_unit in H. injection H as -> H.
    f_equal. by apply IH.
Qed.

Lemma encodeURIComponent_plain (s : string) :
  every_unit is_unreserved s = true -> encodeURIComponent s = s.
Proof.
  induction s as [|c s IH]; [done|].
  intros H. simpl in H. apply andb_prop in H as [Hc Hs].
  simpl. unfold encode_unit. rewrite Hc, (IH Hs). reflexivity.
Qed.

Lemma every_unit_app (p : ascii -> bool) (x y : string) :
  every_unit p (x ++ y) = every_unit p x && every_unit p y.
Proof.
  induction x as [|c x IH]; [done|].
  rewrite append_cons. simpl. by rewrite IH, andb_assoc.
Qed.

Lemma encode_unit_safe (c : ascii) :
  every_unit (fun u => is_unreserved u || Ascii.eqb u "%") (encode_unit c) = true.
Proof. destruct c as [[] [] [] [] [] [] [] []]; reflexivity. Qed.

(** X22. The address of the QR image is the fixed address of the rendering
    service followed by the escaped text: an identifier of letters and
    digits (and [- _ . ! ~ * ' ( )]) follows it verbatim; every other
    character is percent-escaped, so the part after [data=] holds only
    those characters, [%] and hexadecimal digits and cannot start another
    parameter; and two different identifiers never get the same address. *)
Theorem qr_address_carries_the_id (a b : string) :
  (every_unit is_unreserved a = true ->
   generateQRCode (Some a)
   = "https://api.qrserver.com/v1/create-qr-code/?size=300x300&data=" ++ a)
  /\ every_unit (fun u => is_unreserved u || Ascii.eqb u "%")
       (encodeURIComponent a) = true
  /\ has_unit "&" (encodeURIComponent a) = false
  /\ (generateQRCode (Some a) = generateQRCode (Some b) -> a = b)
  /\ generateQRCode None = generateQRCode (Some "undefined").
Proof.
  assert (Hsafe : forall s,
    every_unit (fun u => is_unreserved u || Ascii.eqb u "%")
      (encodeURIComponent s) = true).
  { induction s as [|c s IH]; [done|].
    simpl. by rewrite every_unit_app, encode_unit_safe, IH. }
  assert (Hamp : forall s,
    every_unit (fun u => is_unreserved u || Ascii.eqb u "%") s = true ->
    has_unit "&" s = false).
  { induction s as [|c s IH]; [done|].
    intros H. simpl in H. apply andb_prop in H as [Hc Hs].
    change (has_unit "&" (String c s))
      with (Ascii.eqb "&" c || has_unit "&" s).
    rewrite (IH Hs), orb_false_r.
    destruct (Ascii.eqb "&" c) eqn:E; [|done].
    apply Ascii.eqb_eq in E as <-. discriminate Hc. }
  split; [|split; [|split; [|split]]].
  - intros H. unfold generateQRCode. simpl Js.to_key.
    by rewrite encodeURIComponent_plain.
  - apply Hsafe.
  - apply Hamp, Hsafe.
  - unfold generateQRCode. simpl Js.to_key.
    intros H. by apply append_inv_head, encodeURIComponent_inj in H.
  - reflexivity.
Qed.

Lemma qr_address_carries_the_id_witness :
  generateQRCode (Some "itemX")
  = "https://api.qrserver.com/v1/create-qr-code/?size=300x300&data=itemX".
Proof.
  exact (proj1 (qr_address_carries_the_id "itemX" "itemY") eq_refl).
Defined.

(** * Opening a chat and receiving its messages *)

(** X23. Pressing the contact button, when the write succeeds, issues the
    one keyed chat write, shows the chat view and selects the chat of the
    pair: the cached chat document when the chats listener has it, a local
    stand-in with that id, both participants and no messages otherwise.
    When the chat selected before had another id, or none was selected,
    the next render attaches the message listener for exactly that chat
    id, after tearing down a listener that was attached for another chat.
    When the chat of the pair was selected already (the principal came
    back from it to the owner view), the selection is replaced all the
    same by the cached document or the stand-in, whatever messages it
    held, and the effect does not run: the listener stays as it was and
    nothing is attached. *)
Theorem contact_opens_the_pair_chat (σ : Session) (it : Item) (u o : string) :
  session_ok σ -> canContact (app σ) = true -> db (app σ) = true ->
  selectedItem (app σ) = Some it -> userId (app σ) = Some u ->
  Js.truthy (Some u) = true -> ownerId it = Some o ->
  let cid := getChatDocId (Some u) (Some o) in
  Js.inherited cid = false ->
  (forall c, chats (app σ) !! cid = Some c -> chat_id c = Some cid) ->
  let '(σ', ws, subs) := session_step σ (ClickContact true) in
  ws = [UpsertChat cid (Js.sort_default [Some u; Some o]) (item_id it)]
  /\ view (app σ') = chat
  /\ selectedChat (app σ') ≫= chat_id = Some cid
  /\ (chats (app σ) !! cid = None ->
      selectedChat (app σ')
      = Some {| chat_id := Some cid; participants := Some [Some u; Some o];
                itemId := None; lastMessageAt := None; messages := Some [] |})
  /\ (forall c, chats (app σ) !! cid = Some c -> selectedChat (app σ') = Some c)
  /\ (selectedChat (app σ) ≫= chat_id <> Some cid ->
      live (listener σ') = Some cid
      /\ subs = match live (listener σ) with
                | Some old => [Unsubscribe old; Subscribe cid]
                | None => [Subscribe cid]
                end)
  /\ (selectedChat (app σ) ≫= chat_id = Some cid ->
      listener σ' = listener σ /\ subs = []).
Proof.
  intros [Hsync Hlive] Hcan Hdb Hit Hu Ht Ho cid Hinh Hcache.
  assert (Hsel : exists p, selectedUser (app σ) = Some p).
  { unfold canContact, profileShown in Hcan.
    destruct (view (app σ)); try discriminate Hcan.
    destruct (selectedUser (app σ)) as [p|]; [by exists p|discriminate Hcan]. }
  destruct Hsel as [p Hp].
  assert (Hstep : exists c,
    step (app σ) (ClickContact true)
    = (setView chat (setSelectedChat (Some c) (app σ)),
       [UpsertChat cid (Js.sort_default [Some u; Some o]) (item_id it)])
    /\ chat_id c = Some cid
    /\ (chats (app σ) !! cid = None ->
        c = {| chat_id := Some cid; participants := Some [Some u; Some o];
               itemId := None; lastMessageAt := None; messages := Some [] |})
    /\ (forall c0, chats (app σ) !! cid = Some c0 -> c = c0)).
  { simpl. rewrite Hcan. unfold handleStartChat.
    rewrite Hit, Hp, Hu, Ht, Hdb, Ho.
    rewrite (getChatDocId_nonempty u o). fold cid. simpl negb. cbv iota.
    simpl orb. cbv iota. unfold Js.get. rewrite Hinh.
    destruct (chats (app σ) !! cid) as [c0|] eqn:Hc0.
    - exists c0. repeat split; [by apply Hcache|done|]. by intros ? [= <-].
    - eexists. repeat split; done. }
  destruct Hstep as (c & Hstep & Hcid & Hnone & Hsome).
  unfold session_step.
  replace (match live (listener σ) with
           | Some _ | _ => step (app σ) (ClickContact true)
           end) with (step (app σ) (ClickContact true))
    by by destruct (live (listener σ)).
  rewrite Hstep. unfold messagesEffect. simpl. rewrite Hcid, Hdb.
  destruct (decide (selectedChat (app σ) ≫= chat_id = Some cid)) as [Hold|Hnew].
  - rewrite bool_decide_eq_true_2 by (by rewrite Hsync, Hold).
    simpl. rewrite Hcid. repeat split; try done.
    + intros Hc. by rewrite <- (Hnone Hc).
    + intros c0 Hc0. by rewrite (Hsome c0 Hc0).
  - rewrite bool_decide_eq_false_2.
    2:{ rewrite Hsync. intros [= H]. by rewrite H in Hnew. }
    simpl. rewrite Hcid. repeat split; try done.
    + intros Hc. by rewrite <- (Hnone Hc).
    + intros c0 Hc0. by rewrite (Hsome c0 Hc0).
    + by destruct (live (listener σ)).
Qed.

Lemma contact_opens_the_pair_chat_witness :
  (let '(σ', ws, subs) :=
     session_step Scenario.session_at_owner (ClickContact true) in
   subs = [Subscribe "u1_u2"] /\ view (app σ') = chat)
  /\ (let '(σ', ws, subs) :=
        session_step Cases.session_back_at_owner (ClickContact true) in
      subs = [] /\ selectedChat (app σ') ≫= messages = Some []).
Proof.
  split.
  - pose proof (contact_opens_the_pair_chat Scenario.session_at_owner
      Scenario.backpack "u2" "u1" (conj eq_refl I) eq_refl eq_refl eq_refl
      eq_refl eq_refl eq_refl eq_refl) as H.
    cbv zeta in H.
    assert (Hcache : forall c : Chat,
      chats (app Scenario.session_at_owner)
        !! getChatDocId (Some "u2") (Some "u1") = Some c ->
      chat_id c = Some (getChatDocId (Some "u2") (Some "u1"))).
    { intros c Hc. discriminate Hc. }
    specialize (H Hcache).
    destruct (session_step Scenario.session_at_owner (ClickContact true))
      as [[σ' ws] subs].
    destruct H as (_ & Hv & _ & _ & _ & Hs & _).
    exact (conj (proj2 (Hs ltac:(discriminate))) Hv).
  - pose proof (contact_opens_the_pair_chat Cases.session_back_at_owner
      Scenario.backpack "u2" "u1" (conj eq_refl eq_refl) eq_refl eq_refl
      eq_refl eq_refl eq_refl eq_refl eq_refl) as H.
    cbv zeta in H.
    assert (Hcache : forall c : Chat,
      chats (app Cases.session_back_at_owner)
        !! getChatDocId (Some "u2") (Some "u1") = Some c ->
      chat_id c = Some (getChatDocId (Some "u2") (Some "u1"))).
    { intros c Hc. discriminate Hc. }
    specialize (H Hcache).
    destruct (session_step Cases.session_back_at_owner (ClickContact true))
      as [[σ' ws] subs].
    destruct H as (_ & _ & _ & Hnone & _ & _ & Hs).
    exact (conj (proj2 (Hs eq_refl)) (f_equal (.≫= messages) (Hnone eq_refl))).
Defined.

(** X24. A callback of the message listener replaces the messages of the
    selected chat by the delivered ones and changes nothing else: the
    chat's id and participants, the view and the rest of the state stay,
    no store call is issued and the listener is neither torn down nor
    attached again. While no listener is attached such a callback cannot
    arrive, and the session is left exactly as it is. *)
Theorem messages_fill_the_selected_chat (σ : Session) (msgs : list Message) :
  session_ok σ ->
  (live (listener σ) = None ->
   session_step σ (MessagesSnapshot msgs) = (σ, [], []))
  /\ (forall c ch,
        live (listener σ) = Some c -> selectedChat (app σ) = Some ch ->
        session_step σ (MessagesSnapshot msgs)
        = ({| app := setSelectedChat (Some (with_messages msgs ch)) (app σ);
              listener := listener σ |}, [], [])
        /\ chat_id (with_messages msgs ch) = Some c
        /\ participants (with_messages msgs ch) = participants ch
        /\ messages (with_messages msgs ch) = Some msgs).
Proof.
  intros [Hsync Hlive]. split.
  - intros Hnone. unfold session_step. rewrite Hnone.
    unfold messagesEffect. rewrite bool_decide_eq_true_2 by done.
    by destruct σ.
  - intros c ch Hc Hch. rewrite Hc in Hlive. rewrite Hlive in Hsync.
    rewrite Hch in Hsync. simpl in Hsync. injection Hsync as Hid.
    split; [|by repeat split].
    unfold session_step. rewrite Hc. simpl. rewrite Hch. simpl.
    unfold messagesEffect. simpl.
    rewrite bool_decide_eq_true_2; [done|]. by rewrite Hlive, <- Hid.
Qed.

Lemma messages_fill_the_selected_chat_witness :
  selectedChat
    (app (session_step Scenario.session_chatting
            (MessagesSnapshot [Scenario.hello])).1.1) ≫= messages
  = Some [Scenario.hello].
Proof.
  pose proof (proj2 (messages_fill_the_selected_chat Scenario.session_chatting
    [Scenario.hello] (conj eq_refl eq_refl)) "u1_u2"
    {| chat_id := Some "u1_u2"; participants := Some [Some "u2"; Some "u1"];
       itemId := None; lastMessageAt := None; messages := Some [] |}
    eq_refl eq_refl) as [H _].
  by rewrite H.
Defined.
